(** * group_tsan_races.py: grouping ThreadSanitizer race reports

    A shallow embedding of [src/group_tsan_races.py].  Python [str] values
    are modelled as [string] (characters are the code points below 256, for
    which the whitespace and digit classes below are the ones of CPython);
    exceptions are modelled by the [result] type; the [races] dictionary is
    an insertion-ordered association list, because [sorted] is stable and
    the rendering order depends on insertion order; [Race.tests] is a
    finite set of strings. *)

From Stdlib Require Import ZArith Ascii String List Permutation Sorted DecimalString DecimalZ.
From stdpp Require Import base list strings gmap.

Local Open Scope string_scope.
Local Open Scope Z_scope.

(** ** Exceptions *)

Module Exn.

Inductive exn := ValueError | AttributeError.

Inductive result (A : Type) : Type :=
| Ok (a : A)
| Raise (e : exn).

Arguments Ok {A} a.
Arguments Raise {A} e.

Definition bind {A B} (m : result A) (k : A → result B) : result B :=
  match m with
  | Ok a => k a
  | Raise e => Raise e
  end.

End Exn.

Import Exn.

Global Instance result_bind : MBind result := fun A B k m => bind m k.
Global Instance result_fmap : FMap result := fun A B f m => bind m (fun a => Ok (f a)).

(** ** The string operations of Python the script calls *)

Module Py.

Definition code (c : ascii) : Z := Z.of_nat (nat_of_ascii c).

(** [str.isspace] on one character, as [str.split()] and [int()] use it. *)
Definition is_space (c : ascii) : bool :=
  let n := code c in
  ((9 <=? n) && (n <=? 13)) || ((28 <=? n) && (n <=? 32))
  || (n =? 133) || (n =? 160).

(** [\d] and [[0-9]]. *)
Definition is_digit (c : ascii) : bool :=
  let n := code c in (48 <=? n) && (n <=? 57).

(** [[a-zA-Z0-9]]. *)
Definition is_alnum (c : ascii) : bool :=
  let n := code c in
  ((97 <=? n) && (n <=? 122)) || ((65 <=? n) && (n <=? 90)) || is_digit c.

Definition ch_eqb (a b : ascii) : bool := Ascii.eqb a b.

(** [s.startswith(p)]. *)
Definition startswith (p s : string) : bool := String.prefix p s.

(** [line.strip("\n")]: newlines removed at both ends. *)
Definition NL : ascii := ascii_of_nat 10.

Fixpoint lstrip_nl (s : string) : string :=
  match s with
  | String c r => if ch_eqb c NL then lstrip_nl r else s
  | EmptyString => s
  end.

Fixpoint rstrip_nl (s : string) : string :=
  match s with
  | String c r =>
      match rstrip_nl r with
      | EmptyString => if ch_eqb c NL then EmptyString else String c EmptyString
      | r' => String c r'
      end
  | EmptyString => EmptyString
  end.

Definition strip_nl (s : string) : string := rstrip_nl (lstrip_nl s).

(** Whitespace runs, as in [split_whitespace] of CPython's stringlib. *)
Fixpoint skip_space (s : string) : string :=
  match s with
  | String c r => if is_space c then skip_space r else s
  | EmptyString => s
  end.

(** The maximal run without whitespace at the head, and what follows. *)
Fixpoint span_token (s : string) : string * string :=
  match s with
  | String c r =>
      if is_space c then (EmptyString, s)
      else let '(t, u) := span_token r in (String c t, u)
  | EmptyString => (EmptyString, EmptyString)
  end.

(** [s.split(maxsplit=n)] with no separator. *)
Fixpoint split (n : nat) (s : string) : list string :=
  let s1 := skip_space s in
  match n with
  | O => match s1 with EmptyString => [] | _ => [s1] end
  | S n' =>
      match s1 with
      | EmptyString => []
      | _ => let '(t, u) := span_token s1 in t :: split n' u
      end
  end.

(** [s.split(sep)] for a one-character separator. *)
Fixpoint split_on (sep : ascii) (s : string) : list string :=
  match s with
  | EmptyString => [EmptyString]
  | String c r =>
      if ch_eqb c sep then EmptyString :: split_on sep r
      else match split_on sep r with
           | h :: t => String c h :: t
           | [] => [String c EmptyString]
           end
  end.

(** [sep.join(parts)]. *)
Fixpoint join (sep : string) (parts : list string) : string :=
  match parts with
  | [] => EmptyString
  | [p] => p
  | p :: ps => p ++ sep ++ join sep ps
  end.

(** [s.rfind(c)], counting from index [i] of the head; -1 when absent. *)
Fixpoint rfind_from (c : ascii) (i : Z) (s : string) : Z :=
  match s with
  | EmptyString => -1
  | String x r =>
      let j := rfind_from c (i + 1) r in
      if 0 <=? j then j else if ch_eqb x c then i else -1
  end.

Definition rfind (c : ascii) (s : string) : Z := rfind_from c 0 s.

(** [s[i:]] for [0 <= i]. *)
Fixpoint drop_str (n : nat) (s : string) : string :=
  match n, s with
  | O, _ => s
  | S n', String _ r => drop_str n' r
  | S _, EmptyString => EmptyString
  end.

(** [os.path.basename] of posixpath: [p[p.rfind('/') + 1:]]. *)
Definition basename (p : string) : string :=
  drop_str (Z.to_nat (rfind "/"%char p + 1)) p.

(** The whitespace [int] strips: the ASCII characters of C's [isspace], and
    the two whitespace characters above 127, which [int] turns into spaces
    first.  The separators 28 to 31 are not among them. *)
Definition is_int_space (c : ascii) : bool :=
  let n := code c in
  ((9 <=? n) && (n <=? 13)) || (n =? 32) || (n =? 133) || (n =? 160).

Fixpoint skip_int_space (s : string) : string :=
  match s with
  | String c r => if is_int_space c then skip_int_space r else s
  | EmptyString => s
  end.

(** [int(s)] in base 10.  The text is stripped of whitespace, takes an
    optional sign, then digits in which single underscores may separate
    digits; more digits than the interpreter's limit is a [ValueError]. *)
Fixpoint rstrip_space (s : string) : string :=
  match s with
  | String c r =>
      match rstrip_space r with
      | EmptyString => if is_int_space c then EmptyString else String c EmptyString
      | r' => String c r'
      end
  | EmptyString => EmptyString
  end.

Definition max_str_digits : nat := 4300.

Fixpoint int_digits (prev_us : bool) (acc : Z) (ndig : nat) (s : string)
  : option (Z * nat) :=
  match s with
  | EmptyString => if prev_us then None else Some (acc, ndig)
  | String c r =>
      if is_digit c then int_digits false (10 * acc + (code c - 48)) (S ndig) r
      else if ch_eqb c "_"%char then
             if prev_us then None else int_digits true acc ndig r
           else None
  end.

Definition int_unsigned (s : string) : option Z :=
  match s with
  | EmptyString => None
  | String c _ =>
      if ch_eqb c "_"%char then None
      else match int_digits false 0 0%nat s with
           | Some (v, n) => if (max_str_digits <? n)%nat then None else Some v
           | None => None
           end
  end.

Definition int (s : string) : option Z :=
  match rstrip_space (skip_int_space s) with
  | String "+"%char r => int_unsigned r
  | String "-"%char r => option_map Z.opp (int_unsigned r)
  | b => int_unsigned b
  end.

End Py.

(** ** Module constants *)

Definition SEPARATOR : string := "==================".

Definition PRIMITIVE_PREFIXES : list string := ["_Py_atomic"].

(** [PRIMITIVE_RE.match(func) is not None]: the pattern is the alternation
    of the prefixes, anchored at the start of [func]. *)
Definition PRIMITIVE_RE (func : string) : bool :=
  existsb (fun p => Py.startswith p func) PRIMITIVE_PREFIXES.

(** ** Location and get_key *)

Record Location := mkLocation { func : string; path : string; lineno : Z }.

Global Instance Location_eq_dec : EqDecision Location.
Proof. solve_decision. Defined.

Definition FRAME_MARK : string := "    #".

(** The [try ... except ValueError] around the three-way unpacking. *)
Definition split_loc (loc : string) : string * string :=
  match Py.split_on ":"%char loc with
  | [p; l; _] => (p, l)
  | _ => (loc, "0")
  end.

Definition make_location (fn loc : string) : result Location :=
  let '(p, l) := split_loc loc in
  match Py.int l with
  | Some n => Ok (mkLocation fn (Py.basename p) n)
  | None => Raise ValueError
  end.

Fixpoint get_key (lines : list string) : result (option Location) :=
  match lines with
  | [] => Ok None
  | line :: rest =>
      if Py.startswith FRAME_MARK line then
        match Py.split 3 line with
        | [_; fn; loc; _] =>
            if PRIMITIVE_RE fn then get_key rest
            else l ← make_location fn loc; Ok (Some l)
        | _ => Raise ValueError
        end
      else get_key rest
  end.

(** ** Regular expressions, as the backtracking matcher of [re] runs them

    A pattern is given the continuation for what follows it; alternatives
    are tried in the order of [re]: a greedy repetition takes one more
    character first and gives it back when the rest fails. *)

Module Re.

Definition pat (A : Type) : Type := (string → option A) → string → option A.

Definition cls {A} (p : ascii → bool) : pat A := fun k s =>
  match s with
  | String x r => if p x then k r else None
  | EmptyString => None
  end.

Definition lit {A} (c : ascii) : pat A := cls (fun x => Py.ch_eqb x c).

(** [.] without DOTALL. *)
Definition dot {A} : pat A := cls (fun x => negb (Py.ch_eqb x Py.NL)).

Fixpoint star {A} (p : ascii → bool) (k : string → option A) (s : string)
  : option A :=
  match s with
  | String x r =>
      if p x then match star p k r with Some v => Some v | None => k s end
      else k s
  | EmptyString => k s
  end.

(** [[class]+] *)
Definition plus {A} (p : ascii → bool) : pat A := fun k => cls p (star p k).

(** [c?] *)
Definition opt {A} (c : ascii) : pat A := fun k s =>
  match lit c k s with
  | Some v => Some v
  | None => k s
  end.

Fixpoint str {A} (t : string) : pat A := fun k =>
  match t with
  | EmptyString => k
  | String c t' => lit c (str t' k)
  end.

(** A capturing group: the continuation is given the text the body took. *)
Definition group {A} (body : pat A) (k : string → string → option A)
  : string → option A := fun s =>
  body (fun r => k (String.substring 0 (String.length s - String.length r) s) r) s.

End Re.

(** [TEST_STATUS_RE.match(line)], giving [matches.group(1)]:
    [^\d+:\d+:\d+ load avg: \d+.\d+ \[ ?\d+/\d+] (test_[a-zA-Z0-9]+)] *)
Definition TEST_STATUS_RE : string → option string :=
  Re.plus Py.is_digit (Re.lit ":" (
  Re.plus Py.is_digit (Re.lit ":" (
  Re.plus Py.is_digit (Re.str " load avg: " (
  Re.plus Py.is_digit (Re.dot (
  Re.plus Py.is_digit (Re.str " [" (Re.opt " " (
  Re.plus Py.is_digit (Re.lit "/" (
  Re.plus Py.is_digit (Re.str "] " (
  Re.group (fun k => Re.str "test_" (Re.plus Py.is_alnum k))
           (fun g _ => Some g)))))))))))))))).

(** ** Race records and the dictionary *)

Record Race := mkRace {
  tests : gset string;
  loc : option Location;
  examples : list string
}.

(** [Race.__init__] *)
Definition Race_init (l : option Location) : Race :=
  {| tests := ∅; loc := l; examples := [] |}.

(** A [dict] in insertion order. *)
Abbreviation dict := (list (option Location * Race)).

Fixpoint dict_get (k : option Location) (d : dict) : option Race :=
  match d with
  | [] => None
  | (k', r) :: d' => if decide (k' = k) then Some r else dict_get k d'
  end.

(** [d[k] = r]: a present key keeps its place, a new one goes last. *)
Fixpoint dict_set (k : option Location) (r : Race) (d : dict) : dict :=
  match d with
  | [] => [(k, r)]
  | (k', r') :: d' =>
      if decide (k' = k) then (k, r) :: d' else (k', r') :: dict_set k r d'
  end.

(** Mutation of the object stored under [k]. *)
Fixpoint dict_mutate (f : Race → Race) (k : option Location) (d : dict) : dict :=
  match d with
  | [] => []
  | (k', r) :: d' =>
      if decide (k' = k) then (k', f r) :: d' else (k', r) :: dict_mutate f k d'
  end.

Definition append_example (e : string) (r : Race) : Race :=
  {| tests := tests r; loc := loc r; examples := examples r ++ [e] |}.

Definition add_test (t : string) (r : Race) : Race :=
  {| tests := tests r ∪ {[t]}; loc := loc r; examples := examples r |}.

(** ** The loop of main *)

Record state := mkState {
  races : dict;
  lines : list string;
  in_race : bool;
  cur_test : option string
}.

Definition init : state :=
  {| races := []; lines := []; in_race := false; cur_test := None |}.

(** Lines 106-112, once [loc = get_key(lines)] is known: the record under
    [k] is made if missing, then takes the example [e] and the test [t]. *)
Definition ingest (k : option Location) (e : string) (t : option string)
  (d : dict) : dict :=
  let d1 := match dict_get k d with
            | None => dict_set k (Race_init k) d
            | Some _ => d
            end in
  let d2 := dict_mutate (append_example e) k d1 in
  match t with
  | Some c => dict_mutate (add_test c) k d2
  | None => d2
  end.

Definition example_text (block : list string) : string :=
  Py.join (String Py.NL EmptyString) block.

(** Lines 105-112: [block] closes while [test] is current. *)
Definition close_block (block : list string) (test : option string) (d : dict)
  : result dict :=
  k ← get_key block; Ok (ingest k (example_text block) test d).

(** One iteration of [for line in infile]. *)
Definition step (st : state) (raw : string) : result state :=
  let line := Py.strip_nl raw in
  if in_race st then
    if String.eqb line SEPARATOR then
      d ← close_block (lines st) (cur_test st) (races st);
      Ok {| races := d; lines := []; in_race := false; cur_test := cur_test st |}
    else
      Ok {| races := races st; lines := lines st ++ [line];
            in_race := true; cur_test := cur_test st |}
  else
    match TEST_STATUS_RE line with
    | Some t =>
        Ok {| races := races st; lines := lines st;
              in_race := false; cur_test := Some t |}
    | None =>
        if String.eqb line SEPARATOR then
          Ok {| races := races st; lines := lines st;
                in_race := true; cur_test := cur_test st |}
        else Ok st
    end.

Fixpoint run (st : state) (infile : list string) : result state :=
  match infile with
  | [] => Ok st
  | raw :: rest => st' ← step st raw; run st' rest
  end.

(** ** render_races *)

(** [str(n)] for an [int]. *)
Definition str_of_int (n : Z) : string := NilZero.string_of_int (Z.to_int n).

(** [Location.to_id] *)
Definition to_id (l : Location) : string :=
  func l ++ ":" ++ path l ++ ":" ++ str_of_int (lineno l).

(** The key of the sort: [len(kv[1].examples)]. *)
Definition example_count (kv : option Location * Race) : nat :=
  length (examples kv.2).

(** [sorted(items, reverse=True, key=example_count)].  The sort of Python is
    stable, also with [reverse=True]: items of equal key keep their order. *)
Fixpoint insert_desc (x : option Location * Race)
  (l : list (option Location * Race)) : list (option Location * Race) :=
  match l with
  | [] => [x]
  | y :: l' =>
      if (example_count x <? example_count y)%nat then y :: insert_desc x l'
      else x :: l
  end.

Definition sorted_races (d : dict) : list (option Location * Race) :=
  foldr insert_desc [] d.

(** [sorted(race.tests)]: strings in code point order. *)
Fixpoint insert_str (x : string) (l : list string) : list string :=
  match l with
  | [] => [x]
  | y :: l' => if String.leb x y then x :: l else y :: insert_str x l'
  end.

Definition sorted_tests (t : gset string) : list string :=
  foldr insert_str [] (elements t).

(** What is printed; the fixed markup is left out, the interpolated values
    are kept. *)
Inductive out :=
| Preamble
| Row (fn file : string) (line : Z) (count : nat) (tests_txt examples_id : string)
| ExamplesOpen (examples_id : string)
| Example (text : string)
| ExamplesClose
| Trailer.

(** The body of [for loc, race in sorted_races]; [loc.to_id()] raises
    [AttributeError] on the key [None]. *)
Fixpoint render_rows (l : list (option Location * Race)) : list out * result () :=
  match l with
  | [] => ([], Ok ())
  | (None, _) :: _ => ([], Raise AttributeError)
  | (Some lc, race) :: l' =>
      let examples_id := to_id lc ++ "_examples" in
      let '(o, r) := render_rows l' in
      (Row (func lc) (path lc) (lineno lc) (length (examples race))
           (Py.join ", " (sorted_tests (tests race))) examples_id
       :: ExamplesOpen examples_id
       :: (Example <$> examples race) ++ ExamplesClose :: o, r)
  end.

Definition render_races (d : dict) : list out * result () :=
  let '(o, r) := render_rows (sorted_races d) in
  match r with
  | Ok _ => (Preamble :: o ++ [Trailer], Ok ())
  | Raise e => (Preamble :: o, Raise e)
  end.

(** [main], on the lines the input file iterates over: what is printed on
    standard output and how the call ends. *)
Definition main (infile : list string) : list out * result () :=
  match run init infile with
  | Ok st => render_races (races st)
  | Raise e => ([], Raise e)
  end.

Example get_key_ex1 :
  get_key ["WARNING: ThreadSanitizer: data race";
           "    #0 _Py_atomic_load_ptr Include/cpython/pyatomic_gcc.h:300:18 (python+0x1)";
           "    #1 dict_lookup /src/Objects/dictobject.c:1274:5 (python+0x2)";
           "    #2 other Objects/x.c:7:1 (python+0x3)"]
  = Ok (Some (mkLocation "dict_lookup" "dictobject.c" 1274)).
Proof. reflexivity. Qed.

Example get_key_ex2 :
  get_key ["    #0 f <null> (libc.so+0x5)"] = Ok (Some (mkLocation "f" "<null>" 0)).
Proof. reflexivity. Qed.

Example get_key_ex3 : get_key ["    #0 f a.c:x:3 r"] = Raise ValueError.
Proof. reflexivity. Qed.

Example split_ex : Py.split 3 "   a  b c  d e  " = ["a"; "b"; "c"; "d e  "].
Proof. reflexivity. Qed.

Example int_ex : map Py.int ["12"; "+1_0"; "-7"; "1__0"; "_1"; "1_"; ""; "0012"; "1a"]
  = [Some 12; Some 10; Some (-7); None; None; None; None; Some 12; None].
Proof. reflexivity. Qed.

Example re_ex1 :
  TEST_STATUS_RE "0:00:12 load avg: 1.50 [ 3/400] test_threading passed" = Some "test_threading".
Proof. reflexivity. Qed.

Example re_ex2 :
  TEST_STATUS_RE "0:00:12 load avg: 123 [3/400] test_concurrent_futures" = Some "test_concurrent".
Proof. reflexivity. Qed.

Example re_ex3 : TEST_STATUS_RE SEPARATOR = None.
Proof. reflexivity. Qed.


(** * Facts about the loop *)

Local Open Scope list_scope.

Section Loop.

Lemma bind_Ok {A B} (m : result A) (k : A → result B) (b : B) :
  m ≫= k = Ok b ↔ ∃ a, m = Ok a ∧ k a = Ok b.
Proof.
  destruct m as [a|e]; cbn; split.
  - intros H; exists a; auto.
  - intros (a' & [= <-] & H); exact H.
  - discriminate.
  - intros (a' & [=] & _).
Qed.

Lemma run_app (st : state) (l1 l2 : list string) :
  run st (l1 ++ l2) = run st l1 ≫= (fun st' => run st' l2).
Proof.
  revert st; induction l1 as [|raw l1 IH]; intros st; cbn; [reflexivity|].
  destruct (step st raw) as [st'|e]; cbn; [apply IH | reflexivity].
Qed.

(** A property kept by every iteration holds when the loop ends. *)
Lemma run_invariant (P : state → Prop) :
  (∀ st raw st', P st → step st raw = Ok st' → P st') →
  ∀ infile st st', P st → run st infile = Ok st' → P st'.
Proof.
  intros Hstep; induction infile as [|raw rest IH]; intros st st' HP Hrun.
  - cbn in Hrun; congruence.
  - cbn in Hrun; apply bind_Ok in Hrun as (st1 & H1 & H2); eauto.
Qed.

Lemma step_separator_outside (st : state) (raw : string) :
  in_race st = false → Py.strip_nl raw = SEPARATOR →
  step st raw = Ok {| races := races st; lines := lines st;
                      in_race := true; cur_test := cur_test st |}.
Proof.
  intros Hout Hsep; unfold step; rewrite Hout, Hsep; reflexivity.
Qed.

Lemma step_inside_other (st : state) (raw : string) :
  in_race st = true → Py.strip_nl raw ≠ SEPARATOR →
  step st raw = Ok {| races := races st; lines := lines st ++ [Py.strip_nl raw];
                      in_race := true; cur_test := cur_test st |}.
Proof.
  intros Hin Hne; unfold step; rewrite Hin.
  destruct (String.eqb_spec (Py.strip_nl raw) SEPARATOR); [contradiction | reflexivity].
Qed.

(** Inside a block, lines other than the separator only grow the buffer. *)
Lemma run_inside_block (blk : list string) (st : state) :
  in_race st = true →
  Forall (fun raw => Py.strip_nl raw ≠ SEPARATOR) blk →
  run st blk = Ok {| races := races st; lines := lines st ++ (Py.strip_nl <$> blk);
                     in_race := true; cur_test := cur_test st |}.
Proof.
  revert st; induction blk as [|raw blk IH]; intros st Hin Hall.
  - cbn; rewrite app_nil_r; destruct st; cbn in *; subst; reflexivity.
  - inversion Hall as [|? ? Hraw Hblk]; subst.
    cbn [run]; rewrite step_inside_other by assumption; cbn.
    rewrite IH by (cbn; auto); cbn.
    rewrite <- app_assoc; reflexivity.
Qed.

End Loop.

(** * Facts about the dictionary *)

Section Dict.

(** What one closed block does to the record it lands in. *)
Definition touch (e : string) (t : option string) (r : Race) : Race :=
  let r1 := append_example e r in
  match t with
  | Some c => add_test c r1
  | None => r1
  end.

Lemma dict_get_elem (k : option Location) (r : Race) (d : dict) :
  dict_get k d = Some r → (k, r) ∈ d.
Proof.
  induction d as [|[k' r'] d IH]; cbn; [discriminate|].
  destruct (decide (k' = k)) as [->|Hne].
  - intros [= ->]; left.
  - intros H; right; auto.
Qed.

Lemma dict_get_None (k : option Location) (d : dict) :
  dict_get k d = None ↔ k ∉ d.*1.
Proof.
  induction d as [|[k' r'] d IH]; cbn.
  - split; [intros _; apply not_elem_of_nil | reflexivity].
  - rewrite not_elem_of_cons. destruct (decide (k' = k)) as [->|Hne].
    + split; [discriminate | intros [H _]; contradiction].
    + rewrite IH; split; [intros H; split; [congruence | exact H] | intros [_ H]; exact H].
Qed.

Lemma dict_set_absent (k : option Location) (r : Race) (d : dict) :
  dict_get k d = None → dict_set k r d = d ++ [(k, r)].
Proof.
  induction d as [|[k' r'] d IH]; cbn; [reflexivity|].
  destruct (decide (k' = k)); [discriminate|].
  intros H; rewrite IH by exact H; reflexivity.
Qed.

Lemma dict_mutate_absent_last (f : Race → Race) (k : option Location)
  (r : Race) (d : dict) :
  dict_get k d = None → dict_mutate f k (d ++ [(k, r)]) = d ++ [(k, f r)].
Proof.
  induction d as [|[k' r'] d IH]; cbn.
  - intros _; destruct (decide (k = k)); [reflexivity | contradiction].
  - destruct (decide (k' = k)); [discriminate|].
    intros H; rewrite IH by exact H; reflexivity.
Qed.

Lemma dict_mutate_twice (f g : Race → Race) (k : option Location) (d : dict) :
  dict_mutate g k (dict_mutate f k d) = dict_mutate (g ∘ f) k d.
Proof.
  induction d as [|[k' r'] d IH]; cbn; [reflexivity|].
  destruct (decide (k' = k)) as [->|Hne]; cbn.
  - destruct (decide (k = k)); [reflexivity | contradiction].
  - destruct (decide (k' = k)); [contradiction | rewrite IH; reflexivity].
Qed.

Lemma dict_mutate_keys (f : Race → Race) (k : option Location) (d : dict) :
  (dict_mutate f k d).*1 = d.*1.
Proof.
  induction d as [|[k' r'] d IH]; cbn; [reflexivity|].
  destruct (decide (k' = k)); cbn; [reflexivity | rewrite IH; reflexivity].
Qed.

Lemma dict_get_mutate (f : Race → Race) (k k' : option Location) (d : dict) :
  dict_get k' (dict_mutate f k d)
  = if decide (k = k') then f <$> dict_get k d else dict_get k' d.
Proof.
  induction d as [|[k0 r0] d IH]; cbn.
  - destruct (decide (k = k')); reflexivity.
  - destruct (decide (k0 = k)) as [->|Hne]; cbn.
    + destruct (decide (k = k')); reflexivity.
    + destruct (decide (k0 = k')) as [->|Hne'].
      * destruct (decide (k = k')); [congruence | reflexivity].
      * exact IH.
Qed.

Lemma dict_get_app (k : option Location) (d1 d2 : dict) :
  dict_get k (d1 ++ d2)
  = match dict_get k d1 with Some r => Some r | None => dict_get k d2 end.
Proof.
  induction d1 as [|[k0 r0] d1 IH]; cbn; [reflexivity|].
  destruct (decide (k0 = k)); [reflexivity | exact IH].
Qed.

Lemma touch_alt (e : string) (t : option string) :
  touch e t = match t with
              | Some c => add_test c ∘ append_example e
              | None => append_example e
              end.
Proof. destruct t; reflexivity. Qed.

(** The first block under a key appends a fresh record to the dictionary. *)
Lemma ingest_absent (k : option Location) (e : string) (t : option string)
  (d : dict) :
  dict_get k d = None → ingest k e t d = d ++ [(k, touch e t (Race_init k))].
Proof.
  intros H; unfold ingest; rewrite H, (dict_set_absent _ _ _ H).
  rewrite dict_mutate_absent_last by exact H.
  destruct t; [rewrite dict_mutate_absent_last by exact H|]; reflexivity.
Qed.

(** A later block under a key changes the record in place. *)
Lemma ingest_present (k : option Location) (e : string) (t : option string)
  (d : dict) (r : Race) :
  dict_get k d = Some r → ingest k e t d = dict_mutate (touch e t) k d.
Proof.
  intros H; unfold ingest; rewrite H, touch_alt.
  destruct t; [rewrite dict_mutate_twice|]; reflexivity.
Qed.

Lemma dict_get_ingest (k k' : option Location) (e : string)
  (t : option string) (d : dict) :
  dict_get k' (ingest k e t d)
  = if decide (k = k')
    then Some (touch e t (default (Race_init k) (dict_get k d)))
    else dict_get k' d.
Proof.
  destruct (dict_get k d) as [r|] eqn:Hk.
  - rewrite (ingest_present _ _ _ _ _ Hk), dict_get_mutate, Hk; reflexivity.
  - rewrite (ingest_absent _ _ _ _ Hk), dict_get_app; cbn.
    destruct (decide (k = k')) as [<-|Hne].
    + rewrite Hk; reflexivity.
    + destruct (dict_get k' d); reflexivity.
Qed.

(** Keys stay distinct. *)
Lemma ingest_NoDup (k : option Location) (e : string) (t : option string)
  (d : dict) :
  NoDup d.*1 → NoDup (ingest k e t d).*1.
Proof.
  intros Hnd; destruct (dict_get k d) as [r|] eqn:Hk.
  - rewrite (ingest_present _ _ _ _ _ Hk), dict_mutate_keys; exact Hnd.
  - rewrite (ingest_absent _ _ _ _ Hk), fmap_app; cbn.
    apply NoDup_app; split; [exact Hnd|]; split.
    + intros x Hx Hin; apply list_elem_of_singleton in Hin; subst x.
      apply dict_get_None in Hk; contradiction.
    + apply NoDup_singleton.
Qed.

Lemma Forall_dict_mutate (P : option Location * Race → Prop) (f : Race → Race)
  (k : option Location) (d : dict) :
  (∀ r, P (k, r) → P (k, f r)) → Forall P d → Forall P (dict_mutate f k d).
Proof.
  intros Hf; induction 1 as [|[k' r'] d Hx Hd IH]; cbn; [constructor|].
  destruct (decide (k' = k)) as [->|Hne]; constructor; auto.
Qed.

Definition has_examples (kv : option Location * Race) : Prop :=
  (1 ≤ length (examples kv.2))%nat.

Lemma touch_has_examples (k : option Location) (e : string)
  (t : option string) (r : Race) : has_examples (k, touch e t r).
Proof.
  unfold has_examples, touch; destruct t; cbn; rewrite length_app; cbn; lia.
Qed.

Lemma ingest_has_examples (k : option Location) (e : string)
  (t : option string) (d : dict) :
  Forall has_examples d → Forall has_examples (ingest k e t d).
Proof.
  intros Hd; destruct (dict_get k d) as [r|] eqn:Hk.
  - rewrite (ingest_present _ _ _ _ _ Hk).
    apply Forall_dict_mutate; [|exact Hd].
    intros r0 _; apply touch_has_examples.
  - rewrite (ingest_absent _ _ _ _ Hk).
    apply Forall_app; split; [exact Hd|].
    constructor; [apply touch_has_examples | constructor].
Qed.

End Dict.

(** * The parser state *)

Section Parser.

Lemma step_close (st : state) (raw : string) :
  in_race st = true → Py.strip_nl raw = SEPARATOR →
  step st raw
  = close_block (lines st) (cur_test st) (races st) ≫= (fun d =>
      Ok {| races := d; lines := []; in_race := false; cur_test := cur_test st |}).
Proof.
  intros Hin Hsep; unfold step; rewrite Hin, Hsep; reflexivity.
Qed.

Lemma separator_not_status : TEST_STATUS_RE SEPARATOR = None.
Proof. reflexivity. Qed.

(** The cases of one iteration. *)
Inductive step_case (st : state) (raw : string) (st' : state) : Prop :=
| case_close k :
    in_race st = true → Py.strip_nl raw = SEPARATOR →
    get_key (lines st) = Ok k →
    st' = {| races := ingest k (example_text (lines st)) (cur_test st) (races st);
             lines := []; in_race := false; cur_test := cur_test st |} →
    step_case st raw st'
| case_collect :
    in_race st = true → Py.strip_nl raw ≠ SEPARATOR →
    st' = {| races := races st; lines := lines st ++ [Py.strip_nl raw];
             in_race := true; cur_test := cur_test st |} →
    step_case st raw st'
| case_status t :
    in_race st = false → TEST_STATUS_RE (Py.strip_nl raw) = Some t →
    st' = {| races := races st; lines := lines st;
             in_race := false; cur_test := Some t |} →
    step_case st raw st'
| case_open :
    in_race st = false → Py.strip_nl raw = SEPARATOR →
    st' = {| races := races st; lines := lines st;
             in_race := true; cur_test := cur_test st |} →
    step_case st raw st'
| case_ignore :
    in_race st = false → TEST_STATUS_RE (Py.strip_nl raw) = None →
    Py.strip_nl raw ≠ SEPARATOR → st' = st →
    step_case st raw st'.

Lemma step_cases (st : state) (raw : string) (st' : state) :
  step st raw = Ok st' → step_case st raw st'.
Proof.
  unfold step; destruct (in_race st) eqn:Hin.
  - destruct (String.eqb_spec (Py.strip_nl raw) SEPARATOR) as [Heq|Hne].
    + intros H; apply bind_Ok in H as (d & Hd & [= <-]).
      unfold close_block in Hd; apply bind_Ok in Hd as (k & Hk & [= <-]).
      eapply case_close; eauto.
    + intros [= <-]; apply case_collect; auto.
  - destruct (TEST_STATUS_RE (Py.strip_nl raw)) as [t|] eqn:Hre.
    + intros [= <-]; eapply case_status; eauto.
    + destruct (String.eqb_spec (Py.strip_nl raw) SEPARATOR) as [Heq|Hne].
      * intros [= <-]; apply case_open; auto.
      * intros [= <-]; apply case_ignore; auto.
Qed.

Definition buffer_clear (st : state) : Prop :=
  in_race st = false → lines st = [].

Lemma step_buffer_clear (st : state) (raw : string) (st' : state) :
  buffer_clear st → step st raw = Ok st' → buffer_clear st'.
Proof.
  intros Hinv Hstep; destruct (step_cases _ _ _ Hstep); subst st';
    unfold buffer_clear in *; cbn; auto; discriminate.
Qed.

Lemma pending_lines_empty_outside_block_aux (pre : list string) (st : state) :
  run init pre = Ok st → in_race st = false → lines st = [].
Proof.
  intros Hrun; eapply (run_invariant buffer_clear);
    [apply step_buffer_clear | | exact Hrun].
  intros _; reflexivity.
Qed.

End Parser.

(** C10: whenever the loop is about to read a line outside a block (that is,
    after any prefix of the input), the buffer [lines] is empty; so a block
    that opens there starts from an empty buffer, though line 122 does not
    clear it. *)
Theorem pending_lines_empty_outside_block (pre : list string) (st : state) :
  run init pre = Ok st → in_race st = false →
  lines st = [] ∧
  ∀ raw st', step st raw = Ok st' → in_race st' = true → lines st' = [].
Proof.
  intros Hrun Hout.
  pose proof (pending_lines_empty_outside_block_aux _ _ Hrun Hout) as Hclear.
  split; [exact Hclear|].
  intros raw st' Hstep Hin'.
  destruct (step_cases _ _ _ Hstep); subst st'; cbn in *;
    try congruence; auto.
Qed.

Lemma pending_lines_empty_outside_block_witness :
  lines {| races := ingest None "a" None []; lines := [];
           in_race := false; cur_test := None |} = [] ∧
  ∀ raw st',
    step {| races := ingest None "a" None []; lines := [];
            in_race := false; cur_test := None |} raw = Ok st' →
    in_race st' = true → lines st' = [].
Proof.
  apply (pending_lines_empty_outside_block
           ["noise"; "=================="; "a"; "=================="]);
    reflexivity.
Defined.

(** C9: every record of the dictionary the loop ends with has at least one
    example, whether it is reached as an item or by its key. *)
Theorem records_have_examples (infile : list string) (st : state) :
  run init infile = Ok st →
  (∀ k r, (k, r) ∈ races st → (1 ≤ length (examples r))%nat) ∧
  (∀ k r, dict_get k (races st) = Some r → (1 ≤ length (examples r))%nat).
Proof.
  intros Hrun.
  assert (Hall : Forall has_examples (races st)).
  { eapply (run_invariant (fun s => Forall has_examples (races s)));
      [ | | exact Hrun]; [|constructor].
    intros s raw s' Hs Hstep.
    destruct (step_cases _ _ _ Hstep); subst s'; cbn; auto.
    apply ingest_has_examples; exact Hs. }
  rewrite Forall_forall in Hall.
  split; intros k r Hkr.
  - exact (Hall (k, r) Hkr).
  - exact (Hall (k, r) (dict_get_elem _ _ _ Hkr)).
Qed.

Lemma records_have_examples_witness :
  (∀ k r, (k, r) ∈ ingest None "a" None [] → (1 ≤ length (examples r))%nat) ∧
  (∀ k r, dict_get k (ingest None "a" None []) = Some r →
          (1 ≤ length (examples r))%nat).
Proof.
  apply (records_have_examples
           ["=================="; "a"; "=================="]
           {| races := ingest None "a" None []; lines := [];
              in_race := false; cur_test := None |}).
  reflexivity.
Defined.

(** C4: when the input ends inside a block, the lines collected since the
    opening separator are dropped: the dictionary is the one reached before
    the opening separator, the report is the one of the input without the
    unclosed block, and an input that is one opening separator followed by
    lines other than the separator leaves the dictionary empty. *)
Theorem unclosed_block_discarded (pre blk : list string) (sep : string)
  (st : state) :
  run init pre = Ok st → in_race st = false →
  Py.strip_nl sep = SEPARATOR →
  Forall (fun raw => Py.strip_nl raw ≠ SEPARATOR) blk →
  (∃ st', run init (pre ++ sep :: blk) = Ok st' ∧ races st' = races st) ∧
  main (pre ++ sep :: blk) = main pre ∧
  (∃ st', run init (sep :: blk) = Ok st' ∧ races st' = []).
Proof.
  intros Hrun Hout Hsep Hblk.
  assert (Hgen : ∀ s, in_race s = false →
            ∃ s', run s (sep :: blk) = Ok s' ∧ races s' = races s).
  { intros s Hs. cbn [run]. rewrite (step_separator_outside _ _ Hs Hsep); cbn.
    rewrite run_inside_block by (cbn; auto). eexists; split; reflexivity. }
  destruct (Hgen st Hout) as (st' & Hst' & Hraces).
  assert (Hall : run init (pre ++ sep :: blk) = Ok st').
  { rewrite run_app, Hrun; exact Hst'. }
  split; [eauto|]. split; [|apply (Hgen init); reflexivity].
  unfold main; rewrite Hall, Hrun, Hraces; reflexivity.
Qed.

Lemma unclosed_block_discarded_witness :
  (∃ st', run init (["=================="; "a"; "=================="]
                    ++ "==================" :: ["b"; "c"]) = Ok st' ∧
          races st' = ingest None "a" None []) ∧
  main (["=================="; "a"; "=================="]
        ++ "==================" :: ["b"; "c"])
  = main ["=================="; "a"; "=================="] ∧
  (∃ st', run init ("==================" :: ["b"; "c"]) = Ok st' ∧ races st' = []).
Proof.
  apply (unclosed_block_discarded
           ["=================="; "a"; "=================="] ["b"; "c"]
           "=================="
           {| races := ingest None "a" None []; lines := [];
              in_race := false; cur_test := None |});
    try reflexivity.
  repeat constructor; discriminate.
Defined.

(** * The order of the report *)

Section Snapshot.

Definition more_examples (a b : option Location * Race) : Prop :=
  (example_count b ≤ example_count a)%nat.

Lemma insert_desc_perm (x : option Location * Race)
  (l : list (option Location * Race)) :
  Permutation (x :: l) (insert_desc x l).
Proof.
  induction l as [|y l IH]; cbn [insert_desc]; [reflexivity|].
  destruct (example_count x <? example_count y)%nat; [|reflexivity].
  rewrite perm_swap; constructor; exact IH.
Qed.

Lemma sorted_races_perm (d : dict) : Permutation d (sorted_races d).
Proof.
  induction d as [|x d IH]; cbn; [constructor|].
  rewrite <- insert_desc_perm; constructor; exact IH.
Qed.

Lemma insert_desc_sorted (x : option Location * Race)
  (l : list (option Location * Race)) :
  StronglySorted more_examples l → StronglySorted more_examples (insert_desc x l).
Proof.
  induction 1 as [|y l Hl IH Hy]; cbn [insert_desc]; [repeat constructor|].
  destruct (Nat.ltb_spec (example_count x) (example_count y)) as [Hlt|Hge].
  - constructor; [exact IH|].
    rewrite <- insert_desc_perm; constructor; [unfold more_examples; lia | exact Hy].
  - constructor; [constructor; assumption|].
    constructor; [exact Hge|].
    eapply Forall_impl; [exact Hy|].
    unfold more_examples; intros z Hz; lia.
Qed.

Lemma sorted_races_sorted (d : dict) :
  StronglySorted more_examples (sorted_races d).
Proof.
  induction d as [|x d IH]; cbn; [constructor | apply insert_desc_sorted, IH].
Qed.

Lemma sorted_lookup_order (l : list (option Location * Race)) :
  StronglySorted more_examples l →
  ∀ i j a b, l !! i = Some a → l !! j = Some b → (i < j)%nat → more_examples a b.
Proof.
  induction 1 as [|y l Hl IH Hy]; intros i j a b Hi Hj Hlt.
  - rewrite lookup_nil in Hi; discriminate.
  - destruct j as [|j]; [lia|]. cbn in Hj.
    destruct i as [|i]; cbn in Hi.
    + injection Hi as ->. rewrite Forall_forall in Hy.
      apply Hy, list_elem_of_lookup; eauto.
    + apply (IH i j); [assumption..|lia].
Qed.

End Snapshot.

(** C6: in [sorted_races], the sequence the report is printed from, a record
    with strictly more examples than another stands before it; the sequence
    holds the items of the dictionary, each once. *)
Theorem snapshot_descending (d : dict) (i j : nat)
  (A B : option Location * Race) :
  sorted_races d !! i = Some A → sorted_races d !! j = Some B →
  (example_count B < example_count A)%nat →
  (i < j)%nat ∧ Permutation d (sorted_races d).
Proof.
  intros Hi Hj Hlt; split; [|apply sorted_races_perm].
  destruct (Nat.lt_trichotomy i j) as [Hij|[->|Hji]]; [exact Hij| |].
  - rewrite Hi in Hj; injection Hj as ->; lia.
  - pose proof (sorted_lookup_order _ (sorted_races_sorted d) j i B A Hj Hi Hji) as H.
    unfold more_examples in H; lia.
Qed.

Lemma snapshot_descending_witness :
  (0 < 1)%nat ∧
  Permutation
    [(None, mkRace ∅ None ["x"]); (Some (mkLocation "f" "a.c" 1),
      mkRace ∅ (Some (mkLocation "f" "a.c" 1)) ["y"; "z"])]
    (sorted_races
       [(None, mkRace ∅ None ["x"]); (Some (mkLocation "f" "a.c" 1),
         mkRace ∅ (Some (mkLocation "f" "a.c" 1)) ["y"; "z"])]).
Proof.
  apply (snapshot_descending
           [(None, mkRace ∅ None ["x"]); (Some (mkLocation "f" "a.c" 1),
             mkRace ∅ (Some (mkLocation "f" "a.c" 1)) ["y"; "z"])]
           0 1
           (Some (mkLocation "f" "a.c" 1),
             mkRace ∅ (Some (mkLocation "f" "a.c" 1)) ["y"; "z"])
           (None, mkRace ∅ None ["x"])).
  - reflexivity.
  - reflexivity.
  - cbn; lia.
Defined.

(** * Key derivation *)

Section GetKey.

(** A line the scan goes past without raising: not a frame line, or a frame
    line of four fields whose function is a primitive. *)
Definition passed_over (line : string) : bool :=
  if Py.startswith FRAME_MARK line then
    match Py.split 3 line with
    | [_; fn; _; _] => PRIMITIVE_RE fn
    | _ => false
    end
  else true.

(** A frame line whose second field does not begin with a primitive prefix. *)
Definition qualifying (line : string) : bool :=
  Py.startswith FRAME_MARK line &&
  match Py.split 3 line !! 1%nat with
  | Some fn => negb (PRIMITIVE_RE fn)
  | None => false
  end.

(** A frame line of fewer than four fields. *)
Definition short_frame (line : string) : bool :=
  Py.startswith FRAME_MARK line && (length (Py.split 3 line) <? 4)%nat.

(** A qualifying frame line whose location has three parts, the second of
    which [int] rejects. *)
Definition bad_lineno_frame (line : string) : bool :=
  Py.startswith FRAME_MARK line &&
  match Py.split 3 line with
  | [_; fn; loc; _] =>
      negb (PRIMITIVE_RE fn) &&
      match Py.split_on ":" loc with
      | [_; l; _] => match Py.int l with None => true | Some _ => false end
      | _ => false
      end
  | _ => false
  end.

Lemma PRIMITIVE_RE_prefix (fn : string) :
  PRIMITIVE_RE fn = Py.startswith "_Py_atomic" fn.
Proof. unfold PRIMITIVE_RE; cbn; apply orb_false_r. Qed.

Lemma get_key_passed_over (skipped rest : list string) :
  Forall (fun l => passed_over l = true) skipped →
  get_key (skipped ++ rest) = get_key rest.
Proof.
  induction 1 as [|line skipped Hline _ IH]; [reflexivity|].
  cbn [app get_key]; unfold passed_over in Hline.
  destruct (Py.startswith FRAME_MARK line); [|exact IH].
  destruct (Py.split 3 line) as [|m [|fn [|loc [|r [|]]]]]; try discriminate.
  rewrite Hline; exact IH.
Qed.


Lemma get_key_frame (line m fn loc rest : string) (later : list string) :
  Py.startswith FRAME_MARK line = true →
  Py.split 3 line = [m; fn; loc; rest] → PRIMITIVE_RE fn = false →
  get_key (line :: later) = make_location fn loc ≫= (fun l => Ok (Some l)).
Proof. intros Hm Hs Hp; cbn [get_key]; rewrite Hm, Hs, Hp; reflexivity. Qed.

Lemma get_key_short_frame (line : string) (later : list string) :
  short_frame line = true → get_key (line :: later) = Raise ValueError.
Proof.
  unfold short_frame; intros H; apply andb_prop in H as [Hm Hlen].
  cbn [get_key]; rewrite Hm.
  destruct (Py.split 3 line) as [|m [|fn [|loc [|r [|]]]]]; try reflexivity.
  cbn in Hlen; discriminate.
Qed.

Lemma get_key_bad_lineno (line : string) (later : list string) :
  bad_lineno_frame line = true → get_key (line :: later) = Raise ValueError.
Proof.
  unfold bad_lineno_frame; intros H; apply andb_prop in H as [Hm H].
  cbn [get_key]; rewrite Hm.
  destruct (Py.split 3 line) as [|m [|fn [|loc [|r [|]]]]]; try discriminate.
  apply andb_prop in H as [Hp H]; apply negb_true_iff in Hp; rewrite Hp.
  unfold make_location, split_loc.
  destruct (Py.split_on ":" loc) as [|p [|l [|x [|]]]]; try discriminate.
  destruct (Py.int l); [discriminate | reflexivity].
Qed.

(** ** basename keeps what follows the last slash *)

Fixpoint has_char (c : ascii) (s : string) : bool :=
  match s with
  | EmptyString => false
  | String x r => Py.ch_eqb x c || has_char c r
  end.

Lemma rfind_from_absent (c : ascii) (s : string) (i : Z) :
  has_char c s = false → Py.rfind_from c i s = -1.
Proof.
  revert i; induction s as [|x r IH]; intros i; cbn; [reflexivity|].
  intros H; apply orb_false_elim in H as [Hx Hr].
  rewrite (IH _ Hr), Hx; reflexivity.
Qed.

Lemma rfind_from_last (c : ascii) (a b : string) (i : Z) :
  has_char c b = false → 0 ≤ i →
  Py.rfind_from c i (a ++ String c b)%string = i + Z.of_nat (String.length a).
Proof.
  intros Hb; revert i; induction a as [|x a IH]; intros i Hi.
  - change (Py.rfind_from c i (String c b) = i + 0).
    cbn [Py.rfind_from]; rewrite (rfind_from_absent _ _ _ Hb).
    unfold Py.ch_eqb; rewrite Ascii.eqb_refl; cbn; lia.
  - change (Py.rfind_from c i (String x (a ++ String c b)%string)
            = i + Z.of_nat (S (String.length a))).
    cbn [Py.rfind_from]; rewrite IH by lia.
    destruct (Z.leb_spec 0 (i + 1 + Z.of_nat (String.length a))); lia.
Qed.

Lemma str_app_cons (x : ascii) (a b : string) :
  (String x a ++ b)%string = String x (a ++ b)%string.
Proof. reflexivity. Qed.

Lemma str_app_nil (b : string) : (EmptyString ++ b)%string = b.
Proof. reflexivity. Qed.

Lemma str_app_assoc (a b c : string) :
  ((a ++ b) ++ c)%string = (a ++ b ++ c)%string.
Proof.
  induction a as [|x a IH]; [reflexivity|].
  rewrite !str_app_cons, IH; reflexivity.
Qed.

Lemma str_length_app (a b : string) :
  String.length (a ++ b)%string = (String.length a + String.length b)%nat.
Proof.
  induction a as [|x a IH]; [reflexivity|].
  rewrite str_app_cons; cbn [String.length]; rewrite IH; reflexivity.
Qed.

Lemma drop_str_app (a b : string) :
  Py.drop_str (String.length a) (a ++ b)%string = b.
Proof.
  induction a as [|x a IH]; [destruct b; reflexivity|].
  rewrite str_app_cons; exact IH.
Qed.

Lemma basename_no_slash (name : string) :
  has_char "/" name = false → Py.basename name = name.
Proof.
  intros H; unfold Py.basename, Py.rfind.
  rewrite (rfind_from_absent _ _ _ H); cbn; destruct name; reflexivity.
Qed.

Lemma basename_last_segment (dir name : string) :
  has_char "/" name = false →
  Py.basename (dir ++ String "/" name)%string = name.
Proof.
  intros H; unfold Py.basename, Py.rfind.
  rewrite (rfind_from_last _ _ _ _ H) by lia.
  replace (Z.to_nat (0 + Z.of_nat (String.length dir) + 1))
    with (String.length (dir ++ "/")%string).
  - replace (dir ++ String "/" name)%string with ((dir ++ "/") ++ name)%string.
    + apply drop_str_app.
    + apply str_app_assoc.
  - rewrite str_length_app; simpl; lia.
Qed.

End GetKey.

(** ** int on plain decimal text *)

Section IntValue.

Fixpoint all_chars (p : ascii → bool) (s : string) : bool :=
  match s with
  | EmptyString => true
  | String c r => p c && all_chars p r
  end.

(** The number a run of decimal digits writes, most significant first. *)
Fixpoint dec_value (acc : Z) (s : string) : Z :=
  match s with
  | EmptyString => acc
  | String c r => dec_value (10 * acc + (Py.code c - 48)) r
  end.

Lemma digit_not_space (c : ascii) : Py.is_digit c = true → Py.is_space c = false.
Proof.
  destruct c as [[] [] [] [] [] [] [] []]; cbn; intros H;
    first [reflexivity | discriminate H].
Qed.

Lemma digit_not_int_space (c : ascii) :
  Py.is_digit c = true → Py.is_int_space c = false.
Proof.
  destruct c as [[] [] [] [] [] [] [] []]; cbn; intros H;
    first [reflexivity | discriminate H].
Qed.

Lemma rstrip_space_digits (s : string) :
  all_chars Py.is_digit s = true → Py.rstrip_space s = s.
Proof.
  induction s as [|c r IH]; [reflexivity|].
  cbn [all_chars Py.rstrip_space]; intros H; apply andb_prop in H as [Hc Hr].
  rewrite (IH Hr); destruct r; [|reflexivity].
  rewrite (digit_not_int_space _ Hc); reflexivity.
Qed.

Lemma int_digits_plain (s : string) (acc : Z) (n : nat) :
  all_chars Py.is_digit s = true →
  Py.int_digits false acc n s = Some (dec_value acc s, (n + String.length s)%nat).
Proof.
  revert acc n; induction s as [|c r IH]; intros acc n.
  - intros _; cbn; rewrite Nat.add_0_r; reflexivity.
  - cbn [all_chars Py.int_digits dec_value String.length].
    intros H; apply andb_prop in H as [Hc Hr].
    rewrite Hc, (IH _ _ Hr); do 2 f_equal; lia.
Qed.

Lemma int_plain_digits (s : string) :
  all_chars Py.is_digit s = true → s ≠ EmptyString →
  (String.length s ≤ Py.max_str_digits)%nat →
  Py.int s = Some (dec_value 0 s).
Proof.
  intros Hall Hne Hlen; destruct s as [|c r]; [contradiction|].
  pose proof Hall as Hall'; cbn [all_chars] in Hall'.
  apply andb_prop in Hall' as [Hc Hr].
  unfold Py.int; cbn [Py.skip_int_space]; rewrite (digit_not_int_space _ Hc).
  rewrite (rstrip_space_digits _ Hall).
  assert (Hu : Py.int_unsigned (String c r) = Some (dec_value 0 (String c r))).
  { unfold Py.int_unsigned.
    replace (Py.ch_eqb c "_") with false
      by (destruct c as [[] [] [] [] [] [] [] []]; cbn in Hc |- *;
          first [reflexivity | discriminate Hc]).
    rewrite (int_digits_plain _ _ _ Hall); cbn [Nat.add].
    destruct (Nat.ltb_spec Py.max_str_digits (String.length (String c r)));
      [lia | reflexivity]. }
  destruct c as [[] [] [] [] [] [] [] []]; cbn in Hc;
    first [discriminate Hc | exact Hu].
Qed.

End IntValue.




(** C3: when the scan of a closed block reaches a frame line of fewer than
    four fields, or a qualifying frame line whose three-part location has a
    second part [int] rejects, [main] ends in ValueError and has printed
    nothing, whatever blocks were closed before. *)
Theorem malformed_frame_is_fatal (pre blk post skipped rest : list string)
  (opening closing bad : string) (st : state) :
  run init pre = Ok st → in_race st = false →
  Py.strip_nl opening = SEPARATOR → Py.strip_nl closing = SEPARATOR →
  Forall (fun raw => Py.strip_nl raw ≠ SEPARATOR) blk →
  Py.strip_nl <$> blk = skipped ++ bad :: rest →
  Forall (fun l => passed_over l = true) skipped →
  short_frame bad = true ∨ bad_lineno_frame bad = true →
  main (pre ++ opening :: blk ++ closing :: post) = ([], Raise ValueError).
Proof.
  intros Hrun Hout Hopen Hclose Hblk Hlines Hsk Hbad.
  assert (Hclear : lines st = []).
  { apply (pending_lines_empty_outside_block_aux pre); assumption. }
  assert (Hkey : get_key (skipped ++ bad :: rest) = Raise ValueError).
  { rewrite (get_key_passed_over _ _ Hsk).
    destruct Hbad; [apply get_key_short_frame | apply get_key_bad_lineno];
      assumption. }
  unfold main.
  rewrite run_app, Hrun; cbn [mbind result_bind bind run].
  rewrite (step_separator_outside _ _ Hout Hopen); cbn [mbind result_bind bind].
  rewrite run_app, run_inside_block by (cbn; auto).
  cbn [mbind result_bind bind run races lines in_race cur_test].
  rewrite step_close; [|reflexivity|exact Hclose].
  cbn [races lines in_race cur_test]; rewrite Hclear, app_nil_l, Hlines.
  unfold close_block; rewrite Hkey; reflexivity.
Qed.

Lemma malformed_frame_is_fatal_witness :
  main (["0:00:01 load avg: 1.00 [1/2] test_a"; "==================";
         "    #0 f a.c:1:2 x"; "=================="]
        ++ "==================" :: ["    #0 _Py_atomic_load p.h:3:1 y"; "    #1 g b.c"]
        ++ "==================" :: ["trailing"])
  = ([], Raise ValueError).
Proof.
  apply (malformed_frame_is_fatal
           ["0:00:01 load avg: 1.00 [1/2] test_a"; "==================";
            "    #0 f a.c:1:2 x"; "=================="]
           ["    #0 _Py_atomic_load p.h:3:1 y"; "    #1 g b.c"]
           ["trailing"]
           ["    #0 _Py_atomic_load p.h:3:1 y"] []
           "==================" "==================" "    #1 g b.c"
           {| races := ingest (Some (mkLocation "f" "a.c" 1)) "    #0 f a.c:1:2 x"
                         (Some "test_a") [];
              lines := []; in_race := false; cur_test := Some "test_a" |});
    try reflexivity.
  - repeat constructor; discriminate.
  - repeat constructor.
  - left; reflexivity.
Defined.

(** * The test-status pattern *)

Section Status.

(** The text does not go on with a character of the class. *)
Definition stops (p : ascii → bool) (s : string) : bool :=
  match s with
  | String c _ => negb (p c)
  | EmptyString => true
  end.

(** A line of the form
    [HH:MM:SS load avg: F.F [N/N] test_NAME], what follows the name apart;
    [pad] is the optional space after the bracket. *)
Definition status_line (hh mm ss f1 f2 n1 n2 name rest : string) (pad : bool)
  : string :=
  (hh ++ String ":" (mm ++ String ":" (ss ++ " load avg: " ++
   f1 ++ String "." (f2 ++ " [" ++ (if pad then " " else "") ++
   n1 ++ String "/" (n2 ++ "] " ++ "test_" ++ name ++ rest)))))%string.

(** A non-empty run of characters of one class. *)
Definition run_of (p : ascii → bool) (s : string) : Prop :=
  all_chars p s = true ∧ s ≠ EmptyString.

Lemma star_run {A} (p : ascii → bool) (k : string → option A) (ds rest : string)
  (v : A) :
  all_chars p ds = true → stops p rest = true → k rest = Some v →
  Re.star p k (ds ++ rest)%string = Some v.
Proof.
  intros Hds Hstop Hk; induction ds as [|c ds IH].
  - rewrite str_app_nil; destruct rest as [|c r]; cbn in *; [exact Hk|].
    apply negb_true_iff in Hstop; rewrite Hstop; exact Hk.
  - rewrite str_app_cons; cbn [all_chars Re.star] in *.
    apply andb_prop in Hds as [Hc Hds]; rewrite Hc, (IH Hds); reflexivity.
Qed.

Lemma plus_run {A} (p : ascii → bool) (k : string → option A) (ds rest : string)
  (v : A) :
  run_of p ds → stops p rest = true → k rest = Some v →
  Re.plus p k (ds ++ rest)%string = Some v.
Proof.
  intros [Hds Hne] Hstop Hk; destruct ds as [|c ds]; [contradiction|].
  rewrite str_app_cons; unfold Re.plus, Re.cls.
  cbn [all_chars] in Hds; apply andb_prop in Hds as [Hc Hds].
  rewrite Hc; apply star_run; assumption.
Qed.

Lemma lit_here {A} (c : ascii) (k : string → option A) (r : string) :
  Re.lit c k (String c r) = k r.
Proof. unfold Re.lit, Re.cls, Py.ch_eqb; rewrite Ascii.eqb_refl; reflexivity. Qed.

Lemma str_here {A} (t : string) (k : string → option A) (r : string) :
  Re.str t k (t ++ r)%string = k r.
Proof.
  revert k; induction t as [|c t IH]; intros k; [reflexivity|].
  rewrite str_app_cons; cbn [Re.str]; rewrite lit_here; apply IH.
Qed.

Lemma substring_prefix (a b : string) :
  String.substring 0 (String.length (a ++ b)%string - String.length b) (a ++ b)%string = a.
Proof.
  rewrite str_length_app.
  replace (String.length a + String.length b - String.length b)%nat
    with (String.length a) by lia.
  induction a as [|c a IH]; [destruct b; reflexivity|].
  rewrite str_app_cons; cbn [String.length String.substring]; rewrite IH; reflexivity.
Qed.

Lemma stops_digit_lit (c : ascii) (r : string) :
  Py.is_digit c = false → stops Py.is_digit (String c r) = true.
Proof. intros H; cbn; rewrite H; reflexivity. Qed.

(** The pattern accepts the lines of the format and captures the name. *)
Lemma TEST_STATUS_RE_format (hh mm ss f1 f2 n1 n2 name rest : string) (pad : bool) :
  run_of Py.is_digit hh → run_of Py.is_digit mm → run_of Py.is_digit ss →
  run_of Py.is_digit f1 → run_of Py.is_digit f2 →
  run_of Py.is_digit n1 → run_of Py.is_digit n2 →
  run_of Py.is_alnum name → stops Py.is_alnum rest = true →
  TEST_STATUS_RE (status_line hh mm ss f1 f2 n1 n2 name rest pad)
  = Some ("test_" ++ name)%string.
Proof.
  intros Hhh Hmm Hss Hf1 Hf2 Hn1 Hn2 Hname Hrest.
  unfold TEST_STATUS_RE, status_line.
  apply plus_run; [exact Hhh | reflexivity | rewrite lit_here].
  apply plus_run; [exact Hmm | reflexivity | rewrite lit_here].
  apply plus_run; [exact Hss | reflexivity | rewrite str_here].
  apply plus_run; [exact Hf1 | reflexivity | ].
  change (Re.dot ?k (String "." ?r)) with (k r).
  apply plus_run; [exact Hf2 | reflexivity | rewrite str_here].
  assert (Hgroup :
    Re.plus Py.is_digit (Re.lit "/" (Re.plus Py.is_digit (Re.str "] "
      (Re.group (fun k => Re.str "test_" (Re.plus Py.is_alnum k))
         (fun g _ => Some g)))))
      (n1 ++ String "/" (n2 ++ "] " ++ "test_" ++ name ++ rest))%string
    = Some ("test_" ++ name)%string).
  { apply plus_run; [exact Hn1 | reflexivity | rewrite lit_here].
    apply plus_run; [exact Hn2 | reflexivity | rewrite str_here].
    unfold Re.group; rewrite str_here.
    apply plus_run; [exact Hname | exact Hrest | ].
    rewrite <- (str_app_assoc "test_" name rest), substring_prefix; reflexivity. }
  destruct pad.
  - unfold Re.opt; rewrite str_app_cons, str_app_nil, lit_here, Hgroup; reflexivity.
  - rewrite str_app_nil; unfold Re.opt.
    destruct Hn1 as [Hd Hne]; destruct n1 as [|c n1]; [contradiction|].
    cbn [all_chars] in Hd; apply andb_prop in Hd as [Hc _].
    replace (Re.lit " " _ (String c n1 ++ _)%string) with (@None string).
    + exact Hgroup.
    + rewrite str_app_cons; unfold Re.lit, Re.cls.
      replace (Py.ch_eqb c " ") with false; [reflexivity|].
      destruct c as [[] [] [] [] [] [] [] []]; cbn in Hc |- *;
        first [reflexivity | discriminate Hc].
Qed.

End Status.

(** * The current test *)

Section CurrentTest.

(** No line of [l] is read outside a block and matches the status pattern,
    when the first line is read inside a block or not as [b] says. *)
Fixpoint no_status_outside (b : bool) (l : list string) : bool :=
  match l with
  | [] => true
  | raw :: rest =>
      let line := Py.strip_nl raw in
      (b || match TEST_STATUS_RE line with None => true | Some _ => false end)
      && no_status_outside (if String.eqb line SEPARATOR then negb b else b) rest
  end.

Definition tests_of (r : option Race) : gset string :=
  match r with
  | Some x => tests x
  | None => ∅
  end.

Definition test_set (t : option string) : gset string :=
  match t with
  | Some c => {[c]}
  | None => ∅
  end.

Lemma status_not_separator (line t : string) :
  TEST_STATUS_RE line = Some t → line ≠ SEPARATOR.
Proof. intros H ->; rewrite separator_not_status in H; discriminate. Qed.

Lemma step_status (st : state) (raw t : string) :
  in_race st = false → TEST_STATUS_RE (Py.strip_nl raw) = Some t →
  step st raw = Ok {| races := races st; lines := lines st;
                      in_race := false; cur_test := Some t |}.
Proof. intros Hout Hre; unfold step; rewrite Hout, Hre; reflexivity. Qed.

Lemma step_keeps_cur_test (st : state) (raw : string) (st' : state) :
  step st raw = Ok st' →
  in_race st = true ∨ TEST_STATUS_RE (Py.strip_nl raw) = None →
  cur_test st' = cur_test st ∧
  in_race st'
  = (if String.eqb (Py.strip_nl raw) SEPARATOR then negb (in_race st) else in_race st).
Proof.
  intros Hstep Hq; destruct (step_cases _ _ _ Hstep) as
    [k Hin Hsep Hk ->|Hin Hne ->|t Hout Hre ->|Hout Hsep ->|Hout Hre Hne ->];
    cbn [cur_test in_race].
  - rewrite Hsep, Hin; split; reflexivity.
  - rewrite Hin; destruct (String.eqb_spec (Py.strip_nl raw) SEPARATOR);
      [contradiction | split; reflexivity].
  - destruct Hq as [Hq|Hq]; congruence.
  - rewrite Hsep, Hout; split; reflexivity.
  - rewrite Hout; destruct (String.eqb_spec (Py.strip_nl raw) SEPARATOR);
      [contradiction | split; reflexivity].
Qed.

Lemma run_keeps_cur_test (l : list string) (st st' : state) :
  run st l = Ok st' → no_status_outside (in_race st) l = true →
  cur_test st' = cur_test st.
Proof.
  revert st; induction l as [|raw l IH]; intros st Hrun Hq.
  - cbn in Hrun; congruence.
  - cbn [run] in Hrun; apply bind_Ok in Hrun as (st1 & Hstep & Hrun).
    cbn [no_status_outside] in Hq; apply andb_prop in Hq as [Hnow Hq].
    assert (Hcase : in_race st = true ∨ TEST_STATUS_RE (Py.strip_nl raw) = None).
    { apply orb_prop in Hnow as [H|H]; [left; exact H|right].
      destruct (TEST_STATUS_RE (Py.strip_nl raw)); [discriminate | reflexivity]. }
    destruct (step_keeps_cur_test _ _ _ Hstep Hcase) as [Hcur Hin].
    rewrite <- Hcur; apply IH; [exact Hrun | rewrite Hin; exact Hq].
Qed.

(** What closing a block does to the tests of the records. *)
Lemma step_close_tests (st : state) (raw : string) (k : option Location) :
  in_race st = true → Py.strip_nl raw = SEPARATOR → get_key (lines st) = Ok k →
  ∃ st' r',
    step st raw = Ok st' ∧ cur_test st' = cur_test st ∧
    dict_get k (races st') = Some r' ∧
    tests r' = tests_of (dict_get k (races st)) ∪ test_set (cur_test st) ∧
    ∀ k', k' ≠ k → dict_get k' (races st') = dict_get k' (races st).
Proof.
  intros Hin Hsep Hk.
  rewrite (step_close _ _ Hin Hsep); unfold close_block; rewrite Hk.
  cbn [mbind result_bind bind].
  eexists _, _; split; [reflexivity|]; cbn [races cur_test].
  split; [reflexivity|]. split; [|split].
  - rewrite dict_get_ingest; destruct (decide (k = k)); [reflexivity | contradiction].
  - unfold touch, tests_of, test_set.
    destruct (cur_test st), (dict_get k (races st)); cbn;
      rewrite ?union_empty_r_L, ?union_empty_l_L; reflexivity.
  - intros k' Hne; rewrite dict_get_ingest.
    destruct (decide (k = k')); [congruence | reflexivity].
Qed.

(** A block closed after a status line, with no other status line read
    outside a block in between, has the test of that line in its record. *)
Lemma close_after_status (pre mid : list string) (status closing t : string)
  (st st1 : state) (k : option Location) :
  run init pre = Ok st → in_race st = false →
  TEST_STATUS_RE (Py.strip_nl status) = Some t →
  no_status_outside false mid = true →
  run init (pre ++ status :: mid) = Ok st1 → in_race st1 = true →
  Py.strip_nl closing = SEPARATOR → get_key (lines st1) = Ok k →
  ∃ st2 r,
    run init (pre ++ status :: mid ++ [closing]) = Ok st2 ∧
    cur_test st2 = Some t ∧
    dict_get k (races st2) = Some r ∧ t ∈ tests r.
Proof.
  intros Hpre Hout Hre Hquiet Hmid Hin Hsep Hk.
  assert (Hcur : cur_test st1 = Some t).
  { rewrite run_app, Hpre in Hmid; cbn [mbind result_bind bind run] in Hmid.
    rewrite (step_status _ _ _ Hout Hre) in Hmid; cbn [mbind result_bind bind] in Hmid.
    rewrite (run_keeps_cur_test _ _ _ Hmid Hquiet); reflexivity. }
  destruct (step_close_tests _ _ _ Hin Hsep Hk)
    as (st2 & r & Hstep & Hcur2 & Hget & Htests & _).
  exists st2, r; split; [|split; [congruence|split; [exact Hget|]]].
  - change (pre ++ status :: mid ++ [closing]) with (pre ++ (status :: mid) ++ [closing]).
    rewrite app_assoc, run_app, Hmid; cbn [mbind result_bind bind run].
    rewrite Hstep; reflexivity.
  - rewrite Htests, Hcur; cbn; set_solver.
Qed.

(** A block closed while no status line has been read outside a block
    leaves the tests of its record as they were. *)
Lemma close_before_status (pre : list string) (closing : string) (st : state)
  (k : option Location) :
  no_status_outside false pre = true →
  run init pre = Ok st → in_race st = true →
  Py.strip_nl closing = SEPARATOR → get_key (lines st) = Ok k →
  ∃ st2 r,
    run init (pre ++ [closing]) = Ok st2 ∧ cur_test st2 = None ∧
    dict_get k (races st2) = Some r ∧
    tests r = tests_of (dict_get k (races st)).
Proof.
  intros Hquiet Hpre Hin Hsep Hk.
  pose proof (run_keeps_cur_test _ _ _ Hpre Hquiet) as Hcur; cbn in Hcur.
  destruct (step_close_tests _ _ _ Hin Hsep Hk)
    as (st2 & r & Hstep & Hcur2 & Hget & Htests & _).
  exists st2, r; split; [|split; [congruence|split; [exact Hget|]]].
  - rewrite run_app, Hpre; cbn [mbind result_bind bind run].
    rewrite Hstep; reflexivity.
  - rewrite Htests, Hcur; cbn; apply union_empty_r_L.
Qed.

End CurrentTest.

(** C7: a line of the status format is matched and its capture is [test_]
    with the alphanumeric run that follows; read outside a block, a matching
    line sets [cur_test] to the capture, whatever it was, and changes nothing
    else; a block closed afterwards, with no other matching line read outside
    a block in between, has that test in the tests of its record; a block
    closed while no matching line has been read outside a block adds no test
    to its record. *)
Theorem status_line_sets_current_test :
  (∀ hh mm ss f1 f2 n1 n2 name rest pad,
     run_of Py.is_digit hh → run_of Py.is_digit mm → run_of Py.is_digit ss →
     run_of Py.is_digit f1 → run_of Py.is_digit f2 →
     run_of Py.is_digit n1 → run_of Py.is_digit n2 →
     run_of Py.is_alnum name → stops Py.is_alnum rest = true →
     TEST_STATUS_RE (status_line hh mm ss f1 f2 n1 n2 name rest pad)
     = Some ("test_" ++ name)%string) ∧
  (∀ st raw t,
     in_race st = false → TEST_STATUS_RE (Py.strip_nl raw) = Some t →
     step st raw = Ok {| races := races st; lines := lines st;
                         in_race := false; cur_test := Some t |}) ∧
  (∀ pre mid status closing t st st1 k,
     run init pre = Ok st → in_race st = false →
     TEST_STATUS_RE (Py.strip_nl status) = Some t →
     no_status_outside false mid = true →
     run init (pre ++ status :: mid) = Ok st1 → in_race st1 = true →
     Py.strip_nl closing = SEPARATOR → get_key (lines st1) = Ok k →
     ∃ st2 r,
       run init (pre ++ status :: mid ++ [closing]) = Ok st2 ∧
       cur_test st2 = Some t ∧
       dict_get k (races st2) = Some r ∧ t ∈ tests r) ∧
  (∀ pre closing st k,
     no_status_outside false pre = true →
     run init pre = Ok st → in_race st = true →
     Py.strip_nl closing = SEPARATOR → get_key (lines st) = Ok k →
     ∃ st2 r,
       run init (pre ++ [closing]) = Ok st2 ∧ cur_test st2 = None ∧
       dict_get k (races st2) = Some r ∧
       tests r = tests_of (dict_get k (races st))).
Proof.
  split; [exact TEST_STATUS_RE_format|].
  split; [exact step_status|].
  split; [exact close_after_status | exact close_before_status].
Qed.

Lemma status_line_sets_current_test_witness :
  ∃ st2 r,
    run init (["0:00:01 load avg: 1.00 [1/2] test_old"]
              ++ "0:00:12 load avg: 1.50 [ 3/400] test_threading passed"
              :: ["noise"; "=================="; "    #0 f a.c:1:2 x";
                  "0:00:13 load avg: 1.50 [ 4/400] test_inner"]
              ++ ["=================="]) = Ok st2 ∧
    cur_test st2 = Some "test_threading" ∧
    dict_get (Some (mkLocation "f" "a.c" 1)) (races st2) = Some r ∧
    "test_threading" ∈ tests r.
Proof.
  destruct status_line_sets_current_test as (_ & _ & H & _).
  apply (H ["0:00:01 load avg: 1.00 [1/2] test_old"]
           ["noise"; "=================="; "    #0 f a.c:1:2 x";
            "0:00:13 load avg: 1.50 [ 4/400] test_inner"]
           "0:00:12 load avg: 1.50 [ 3/400] test_threading passed"
           "=================="  "test_threading"
           {| races := []; lines := []; in_race := false;
              cur_test := Some "test_old" |}
           {| races := [];
              lines := ["    #0 f a.c:1:2 x";
                        "0:00:13 load avg: 1.50 [ 4/400] test_inner"];
              in_race := true; cur_test := Some "test_threading" |});
    reflexivity.
Defined.

(** * The blocks the loop closes *)

Section Events.

(** The parser without the dictionary: buffer, inside a block or not, and
    current test. *)
Definition parser : Type := list string * bool * option string.

Definition parser_of (st : state) : parser := (lines st, in_race st, cur_test st).

Definition with_parser (d : dict) (p : parser) : state :=
  let '(buf, inside, cur) := p in
  {| races := d; lines := buf; in_race := inside; cur_test := cur |}.

(** One line: the next parser, and the block this line closes, if any, with
    the test current at the close. *)
Definition scan_step (p : parser) (raw : string)
  : parser * option (list string * option string) :=
  let '(buf, inside, cur) := p in
  let line := Py.strip_nl raw in
  if inside then
    if String.eqb line SEPARATOR then (([], false, cur), Some (buf, cur))
    else ((buf ++ [line], true, cur), None)
  else
    match TEST_STATUS_RE line with
    | Some t => ((buf, false, Some t), None)
    | None =>
        if String.eqb line SEPARATOR then ((buf, true, cur), None)
        else (p, None)
    end.

Fixpoint scan (p : parser) (infile : list string) : parser :=
  match infile with
  | [] => p
  | raw :: rest => scan (scan_step p raw).1 rest
  end.

Fixpoint closed_blocks (p : parser) (infile : list string)
  : list (list string * option string) :=
  match infile with
  | [] => []
  | raw :: rest =>
      let '(p', b) := scan_step p raw in
      match b with
      | Some x => x :: closed_blocks p' rest
      | None => closed_blocks p' rest
      end
  end.

(** A closed block with its key: the event the aggregation takes. *)
Record RaceEvent := mkEvent {
  ev_key : option Location;
  ev_text : string;
  ev_test : option string
}.

Fixpoint keyed (blocks : list (list string * option string))
  : result (list RaceEvent) :=
  match blocks with
  | [] => Ok []
  | (b, t) :: rest =>
      k ← get_key b; evs ← keyed rest; Ok (mkEvent k (example_text b) t :: evs)
  end.

Definition ingest_event (d : dict) (ev : RaceEvent) : dict :=
  ingest (ev_key ev) (ev_text ev) (ev_test ev) d.

Definition ingest_events (d : dict) (evs : list RaceEvent) : dict :=
  foldl ingest_event d evs.

(** The record a key ends with: each of its events touches it in turn. *)
Definition record_step (k : option Location) (r : option Race) (ev : RaceEvent)
  : option Race :=
  if decide (ev_key ev = k)
  then Some (touch (ev_text ev) (ev_test ev) (default (Race_init k) r))
  else r.

Definition record_of (k : option Location) (r : option Race)
  (evs : list RaceEvent) : option Race :=
  foldl (record_step k) r evs.

Definition has_key (k : option Location) (ev : RaceEvent) : Prop := ev_key ev = k.

Global Instance has_key_dec k ev : Decision (has_key k ev).
Proof. unfold has_key; apply _. Defined.

Lemma step_scan_step (st : state) (raw : string) :
  step st raw
  = match scan_step (parser_of st) raw with
    | (p', Some (b, t)) =>
        close_block b t (races st) ≫= (fun d => Ok (with_parser d p'))
    | (p', None) => Ok (with_parser (races st) p')
    end.
Proof.
  unfold step, scan_step, parser_of; destruct st as [d buf inside cur]; cbn.
  destruct inside.
  - destruct (String.eqb (Py.strip_nl raw) SEPARATOR); reflexivity.
  - destruct (TEST_STATUS_RE (Py.strip_nl raw)); [reflexivity|].
    destruct (String.eqb (Py.strip_nl raw) SEPARATOR); reflexivity.
Qed.

Lemma parser_of_with_parser (d : dict) (p : parser) :
  parser_of (with_parser d p) = p ∧ races (with_parser d p) = d.
Proof. destruct p as [[buf inside] cur]; split; reflexivity. Qed.

(** The loop is the scan, with the closed blocks ingested in order. *)
Lemma run_events (infile : list string) (st : state) :
  run st infile
  = keyed (closed_blocks (parser_of st) infile) ≫= (fun evs =>
      Ok (with_parser (ingest_events (races st) evs) (scan (parser_of st) infile))).
Proof.
  revert st; induction infile as [|raw rest IH]; intros st.
  - destruct st; reflexivity.
  - cbn [run closed_blocks scan]; rewrite step_scan_step.
    destruct (scan_step (parser_of st) raw) as [p' [[b t]|]]; cbn [fst].
    + unfold close_block; cbn [keyed].
      destruct (get_key b) as [k|e]; [|reflexivity].
      cbn [mbind result_bind bind]; rewrite IH.
      destruct (parser_of_with_parser (ingest k (example_text b) t (races st)) p')
        as [-> ->].
      destruct (keyed (closed_blocks p' rest)) as [evs|e]; reflexivity.
    + cbn [mbind result_bind bind]; rewrite IH.
      destruct (parser_of_with_parser (races st) p') as [-> ->]; reflexivity.
Qed.

Lemma dict_get_ingest_events (k : option Location) (evs : list RaceEvent)
  (d : dict) :
  dict_get k (ingest_events d evs) = record_of k (dict_get k d) evs.
Proof.
  revert d; induction evs as [|ev evs IH]; intros d; [reflexivity|].
  cbn [ingest_events record_of foldl]; fold (ingest_events (ingest_event d ev) evs).
  fold (record_of k (record_step k (dict_get k d) ev) evs).
  rewrite IH; f_equal; unfold ingest_event, record_step.
  rewrite dict_get_ingest.
  destruct (decide (ev_key ev = k)) as [<-|Hne]; reflexivity.
Qed.

(** Only the events of a key matter to its record. *)
Lemma record_of_filter (k : option Location) (evs : list RaceEvent)
  (r : option Race) :
  record_of k r evs = record_of k r (filter (has_key k) evs).
Proof.
  revert r; induction evs as [|ev evs IH]; intros r; [reflexivity|].
  rewrite filter_cons; unfold has_key at 1.
  cbn [record_of foldl]; fold (record_of k (record_step k r ev) evs).
  destruct (decide (ev_key ev = k)) as [Hk|Hne].
  - cbn [record_of foldl]; fold (record_of k (record_step k r ev) (filter (has_key k) evs)).
    apply IH.
  - unfold record_step at 1; destruct (decide (ev_key ev = k)); [contradiction|].
    apply IH.
Qed.

Lemma ingest_events_NoDup (evs : list RaceEvent) (d : dict) :
  NoDup d.*1 → NoDup (ingest_events d evs).*1.
Proof.
  revert d; induction evs as [|ev evs IH]; intros d Hd; [exact Hd|].
  apply IH, ingest_NoDup, Hd.
Qed.

End Events.

(** * The record of a key *)

Section Records.

(** A record after the events of its key, in order. *)
Definition grow (r : Race) (own : list RaceEvent) : Race :=
  foldl (fun r ev => touch (ev_text ev) (ev_test ev) r) r own.

Lemma grow_cons (r : Race) (ev : RaceEvent) (own : list RaceEvent) :
  grow r (ev :: own) = grow (touch (ev_text ev) (ev_test ev) r) own.
Proof. reflexivity. Qed.

Lemma touch_fields (e : string) (t : option string) (r : Race) :
  examples (touch e t r) = examples r ++ [e] ∧
  loc (touch e t r) = loc r ∧
  tests (touch e t r) = tests r ∪ test_set t.
Proof.
  unfold touch; destruct t; cbn; repeat split; try reflexivity.
  symmetry; apply union_empty_r_L.
Qed.

Lemma grow_examples (own : list RaceEvent) (r : Race) :
  examples (grow r own) = examples r ++ (ev_text <$> own).
Proof.
  revert r; induction own as [|ev own IH]; intros r.
  - cbn; rewrite app_nil_r; reflexivity.
  - rewrite grow_cons, IH.
    destruct (touch_fields (ev_text ev) (ev_test ev) r) as (-> & _ & _).
    rewrite <- app_assoc; reflexivity.
Qed.

Lemma grow_loc (own : list RaceEvent) (r : Race) : loc (grow r own) = loc r.
Proof.
  revert r; induction own as [|ev own IH]; intros r; [reflexivity|].
  rewrite grow_cons, IH.
  destruct (touch_fields (ev_text ev) (ev_test ev) r) as (_ & -> & _); reflexivity.
Qed.

Lemma size_add_test (X : gset string) (t : option string) :
  (size (X ∪ test_set t) ≤ S (size X))%nat.
Proof.
  rewrite size_union_alt.
  assert (size (test_set t ∖ X) ≤ 1)%nat; [|lia].
  transitivity (size (test_set t)); [apply subseteq_size; set_solver|].
  destruct t; cbn; [rewrite size_singleton | rewrite size_empty]; lia.
Qed.

Lemma grow_tests_size (own : list RaceEvent) (r : Race) :
  (size (tests (grow r own)) ≤ size (tests r) + length own)%nat.
Proof.
  revert r; induction own as [|ev own IH]; intros r; [cbn; lia|].
  rewrite grow_cons; etransitivity; [apply IH|].
  destruct (touch_fields (ev_text ev) (ev_test ev) r) as (_ & _ & ->).
  pose proof (size_add_test (tests r) (ev_test ev)); cbn [length]; lia.
Qed.

Lemma record_of_some (k : option Location) (own : list RaceEvent) (r : Race) :
  Forall (has_key k) own → record_of k (Some r) own = Some (grow r own).
Proof.
  revert r; induction own as [|ev own IH]; intros r Hown; [reflexivity|].
  inversion Hown as [|? ? Hev Hrest]; subst.
  cbn [record_of foldl]; fold (record_of k (record_step k (Some r) ev) own).
  unfold record_step; unfold has_key in Hev.
  destruct (decide (ev_key ev = k)); [|contradiction].
  rewrite IH by exact Hrest; reflexivity.
Qed.

Lemma record_of_first (k : option Location) (ev : RaceEvent)
  (own : list RaceEvent) :
  Forall (has_key k) (ev :: own) →
  record_of k None (ev :: own) = Some (grow (Race_init k) (ev :: own)).
Proof.
  intros Hown; inversion Hown as [|? ? Hev Hrest]; subst.
  cbn [record_of foldl]; fold (record_of k (record_step k None ev) own).
  unfold record_step; unfold has_key in Hev.
  destruct (decide (ev_key ev = k)); [|contradiction].
  rewrite record_of_some by exact Hrest; reflexivity.
Qed.

Lemma record_of_none (k : option Location) :
  record_of k None [] = None.
Proof. reflexivity. Qed.

Lemma filter_has_key (k : option Location) (evs : list RaceEvent) :
  Forall (has_key k) (filter (has_key k) evs).
Proof. apply Forall_forall; intros ev Hev; apply list_elem_of_filter in Hev as [H _]; exact H. Qed.

(** With distinct keys, the items under a key are the one [dict_get] finds. *)
Lemma dict_get_unique (k : option Location) (r : Race) (d : dict) :
  NoDup d.*1 → dict_get k d = Some r →
  filter (fun kv => kv.1 = k) d = [(k, r)].
Proof.
  induction d as [|[k' r'] d IH]; cbn [dict_get fmap list_fmap fst];
    [discriminate|].
  intros Hnd Hget; apply NoDup_cons in Hnd as [Hnotin Hnd].
  rewrite filter_cons; cbn [fst].
  destruct (decide (k' = k)) as [->|Hne].
  - injection Hget as ->; f_equal.
    assert (Hnone : ∀ d', k ∉ d'.*1 → filter (fun kv : option Location * Race => kv.1 = k) d' = []).
    { clear; induction d' as [|[k1 r1] d' IH']; [reflexivity|].
      cbn [fmap list_fmap fst]; rewrite not_elem_of_cons; intros [Hne Hrest].
      rewrite filter_cons; cbn [fst].
      destruct (decide (k1 = k)); [congruence | apply IH', Hrest]. }
    apply Hnone, Hnotin.
  - apply IH; assumption.
Qed.

End Records.

(** C2: when every closed block of the input has a key, the blocks whose key
    is [k], if there are any, are gathered in one record: the dictionary has
    one item under [k], its examples are the texts of those blocks in the
    order of the input, one for each, and its tests are at most as many. *)
Theorem same_key_blocks_one_record (infile : list string)
  (evs : list RaceEvent) (k : option Location) :
  keyed (closed_blocks ([], false, None) infile) = Ok evs →
  filter (has_key k) evs ≠ [] →
  ∃ st r,
    run init infile = Ok st ∧
    filter (fun kv => kv.1 = k) (races st) = [(k, r)] ∧
    dict_get k (races st) = Some r ∧
    loc r = k ∧
    examples r = ev_text <$> filter (has_key k) evs ∧
    length (examples r) = length (filter (has_key k) evs) ∧
    (size (tests r) ≤ length (filter (has_key k) evs))%nat.
Proof.
  intros Hkeyed Hown.
  pose proof (run_events infile init) as Hrun.
  change (parser_of init) with (([], false, None) : parser) in Hrun.
  rewrite Hkeyed in Hrun; cbn [mbind result_bind bind races init] in Hrun.
  set (own := filter (has_key k) evs) in *.
  assert (Hget : dict_get k (ingest_events [] evs) = Some (grow (Race_init k) own)).
  { rewrite dict_get_ingest_events, record_of_filter; fold own; cbn [dict_get].
    pose proof (filter_has_key k evs) as Hall; fold own in Hall.
    destruct own as [|ev own']; [contradiction|].
    apply record_of_first, Hall. }
  eexists _, (grow (Race_init k) own); split; [exact Hrun|].
  destruct (parser_of_with_parser (ingest_events [] evs)
              (scan ([], false, None) infile)) as [_ ->].
  split; [|split; [exact Hget|]].
  - apply dict_get_unique; [|exact Hget].
    apply ingest_events_NoDup; constructor.
  - rewrite grow_loc, grow_examples; cbn [Race_init loc examples app].
    split; [reflexivity|]. split; [reflexivity|].
    split; [apply length_fmap|].
    pose proof (grow_tests_size own (Race_init k)) as Hsize.
    cbn [Race_init tests] in Hsize; rewrite size_empty in Hsize; exact Hsize.
Qed.

Lemma same_key_blocks_one_record_witness :
  ∃ st r,
    run init ["0:00:01 load avg: 1.00 [1/2] test_a"; "==================";
              "    #0 f a.c:1:2 x"; "=================="; "==================";
              "    #0 f a.c:1:9 y"; "=================="] = Ok st ∧
    filter (fun kv => kv.1 = Some (mkLocation "f" "a.c" 1)) (races st)
      = [(Some (mkLocation "f" "a.c" 1), r)] ∧
    dict_get (Some (mkLocation "f" "a.c" 1)) (races st) = Some r ∧
    loc r = Some (mkLocation "f" "a.c" 1) ∧
    examples r
      = ev_text <$> filter (has_key (Some (mkLocation "f" "a.c" 1)))
          [mkEvent (Some (mkLocation "f" "a.c" 1)) "    #0 f a.c:1:2 x" (Some "test_a");
           mkEvent (Some (mkLocation "f" "a.c" 1)) "    #0 f a.c:1:9 y" (Some "test_a")] ∧
    length (examples r)
      = length (filter (has_key (Some (mkLocation "f" "a.c" 1)))
          [mkEvent (Some (mkLocation "f" "a.c" 1)) "    #0 f a.c:1:2 x" (Some "test_a");
           mkEvent (Some (mkLocation "f" "a.c" 1)) "    #0 f a.c:1:9 y" (Some "test_a")]) ∧
    (size (tests r)
      ≤ length (filter (has_key (Some (mkLocation "f" "a.c" 1)))
          [mkEvent (Some (mkLocation "f" "a.c" 1)) "    #0 f a.c:1:2 x" (Some "test_a");
           mkEvent (Some (mkLocation "f" "a.c" 1)) "    #0 f a.c:1:9 y" (Some "test_a")]))%nat.
Proof.
  apply (same_key_blocks_one_record
           ["0:00:01 load avg: 1.00 [1/2] test_a"; "==================";
            "    #0 f a.c:1:2 x"; "=================="; "==================";
            "    #0 f a.c:1:9 y"; "=================="]).
  - reflexivity.
  - discriminate.
Defined.

(** * Exchanging two blocks *)

Section Swap.

Definition inside (p : parser) : bool := p.1.2.
Definition current (p : parser) : option string := p.2.

(** The two runs end alike: the same record under every key, or the same
    exception. *)
Definition same_records (r1 r2 : result state) : Prop :=
  match r1, r2 with
  | Ok s1, Ok s2 => ∀ k, dict_get k (races s1) = dict_get k (races s2)
  | Raise e1, Raise e2 => e1 = e2
  | _, _ => False
  end.

Lemma scan_app (l1 l2 : list string) (p : parser) :
  scan p (l1 ++ l2) = scan (scan p l1) l2.
Proof. revert p; induction l1 as [|raw l1 IH]; intros p; [reflexivity | apply IH]. Qed.

Lemma closed_blocks_app (l1 l2 : list string) (p : parser) :
  closed_blocks p (l1 ++ l2) = closed_blocks p l1 ++ closed_blocks (scan p l1) l2.
Proof.
  revert p; induction l1 as [|raw l1 IH]; intros p; [reflexivity|].
  cbn [app closed_blocks scan].
  destruct (scan_step p raw) as [p' [b|]]; cbn [fst]; rewrite IH; reflexivity.
Qed.

Lemma scan_step_buffer (p : parser) (raw : string) :
  (inside p = false → p.1.1 = []) →
  inside (scan_step p raw).1 = false → (scan_step p raw).1.1.1 = [].
Proof.
  destruct p as [[buf ins] cur]; unfold inside, scan_step; cbn [fst snd].
  destruct ins.
  - destruct (String.eqb (Py.strip_nl raw) SEPARATOR); cbn; [reflexivity | discriminate].
  - intros H; specialize (H eq_refl); subst buf.
    destruct (TEST_STATUS_RE (Py.strip_nl raw)); [reflexivity|].
    destruct (String.eqb (Py.strip_nl raw) SEPARATOR); cbn; [discriminate | reflexivity].
Qed.

Lemma scan_buffer (l : list string) (p : parser) :
  (inside p = false → p.1.1 = []) →
  inside (scan p l) = false → (scan p l).1.1 = [].
Proof.
  revert p; induction l as [|raw l IH]; intros p Hp; [exact Hp|].
  cbn [scan]; apply IH, scan_step_buffer, Hp.
Qed.

(** Outside a block the parser is known by its current test alone. *)
Lemma scan_outside (l : list string) (c : option string) :
  inside (scan ([], false, c) l) = false →
  scan ([], false, c) l = ([], false, current (scan ([], false, c) l)).
Proof.
  intros Hout.
  pose proof (scan_buffer l ([], false, c) (fun _ => eq_refl) Hout) as Hbuf.
  destruct (scan ([], false, c) l) as [[buf ins] cur]; unfold inside, current in *.
  cbn in *; subst; reflexivity.
Qed.

Lemma scan_collect (blk : list string) (buf : list string) (c : option string) :
  Forall (fun raw => Py.strip_nl raw ≠ SEPARATOR) blk →
  scan (buf, true, c) blk = (buf ++ (Py.strip_nl <$> blk), true, c) ∧
  closed_blocks (buf, true, c) blk = [].
Proof.
  revert buf; induction blk as [|raw blk IH]; intros buf Hblk.
  - cbn; rewrite app_nil_r; split; reflexivity.
  - inversion Hblk as [|? ? Hraw Hrest]; subst.
    cbn [scan closed_blocks scan_step fmap list_fmap].
    destruct (String.eqb_spec (Py.strip_nl raw) SEPARATOR); [contradiction|].
    cbn [fst]; destruct (IH (buf ++ [Py.strip_nl raw]) Hrest) as [-> ->].
    rewrite <- app_assoc; split; reflexivity.
Qed.

(** A whole block, read from outside: one closed block, and the parser is
    back outside with the same current test. *)
Lemma scan_block (blk : list string) (opening closing : string)
  (c : option string) :
  Py.strip_nl opening = SEPARATOR → Py.strip_nl closing = SEPARATOR →
  Forall (fun raw => Py.strip_nl raw ≠ SEPARATOR) blk →
  scan ([], false, c) (opening :: blk ++ [closing]) = ([], false, c) ∧
  closed_blocks ([], false, c) (opening :: blk ++ [closing])
  = [(Py.strip_nl <$> blk, c)].
Proof.
  intros Hopen Hclose Hblk.
  assert (Hfirst : scan_step ([], false, c) opening = (([], true, c), None)).
  { unfold scan_step; rewrite Hopen; reflexivity. }
  cbn [scan closed_blocks]; rewrite Hfirst; cbn [fst].
  rewrite scan_app, closed_blocks_app.
  destruct (scan_collect blk [] c Hblk) as [-> ->].
  cbn [scan closed_blocks scan_step app]; rewrite Hclose; cbn.
  split; reflexivity.
Qed.

Lemma keyed_app (b1 b2 : list (list string * option string)) :
  keyed (b1 ++ b2)
  = keyed b1 ≫= (fun e1 => keyed b2 ≫= (fun e2 => Ok (e1 ++ e2))).
Proof.
  induction b1 as [|[b t] b1 IH]; cbn [app keyed].
  - cbn; destruct (keyed b2); reflexivity.
  - destruct (get_key b) as [k|e]; [|reflexivity].
    cbn [mbind result_bind bind]; rewrite IH.
    destruct (keyed b1) as [e1|e]; [|reflexivity].
    cbn; destruct (keyed b2); reflexivity.
Qed.

Lemma keyed_keys (bs : list (list string * option string))
  (evs : list RaceEvent) (P : option Location → Prop) :
  keyed bs = Ok evs →
  Forall (fun b => ∀ k, get_key b.1 = Ok k → P k) bs →
  Forall (fun ev => P (ev_key ev)) evs.
Proof.
  revert evs; induction bs as [|[b t] bs IH]; intros evs Hk Hall.
  - injection Hk as <-; constructor.
  - cbn [keyed] in Hk; apply bind_Ok in Hk as (k & Hkey & Hk).
    apply bind_Ok in Hk as (evs' & Hrest & [= <-]).
    inversion Hall as [|? ? Hb Hbs]; subst.
    constructor; [apply Hb, Hkey | apply IH; assumption].
Qed.

Lemma filter_none (k : option Location) (evs : list RaceEvent) :
  Forall (fun ev => ev_key ev ≠ k) evs → filter (has_key k) evs = [].
Proof.
  induction 1 as [|ev evs Hev _ IH]; [reflexivity|].
  rewrite filter_cons; unfold has_key at 1.
  destruct (decide (ev_key ev = k)); [contradiction | exact IH].
Qed.

(** Two events of different keys and one test change places across events of
    other keys: every key keeps its events, in order. *)
Lemma filter_swap (k : option Location) (e1 e2 : RaceEvent)
  (pre mid post : list RaceEvent) :
  ev_key e1 ≠ ev_key e2 →
  Forall (fun ev => ev_key ev ≠ ev_key e1 ∧ ev_key ev ≠ ev_key e2) mid →
  filter (has_key k) (pre ++ e1 :: mid ++ e2 :: post)
  = filter (has_key k) (pre ++ e2 :: mid ++ e1 :: post).
Proof.
  intros Hne Hmid.
  rewrite !filter_app, !filter_cons, !filter_app, !filter_cons.
  destruct (decide (has_key k e1)) as [H1|H1];
    destruct (decide (has_key k e2)) as [H2|H2]; unfold has_key in H1, H2;
    try congruence.
  - rewrite (filter_none k mid); [reflexivity|].
    eapply Forall_impl; [exact Hmid|]; cbn; intros ev [Ha _]; congruence.
  - rewrite (filter_none k mid); [reflexivity|].
    eapply Forall_impl; [exact Hmid|]; cbn; intros ev [_ Hb]; congruence.
Qed.

End Swap.

Section SwapProof.

Variables (pre mid post : list string) (o1 c1 o2 c2 : string)
  (t : option string).

Hypothesis pre_outside : inside (scan ([], false, None) pre) = false.
Hypothesis pre_current : current (scan ([], false, None) pre) = t.
Hypothesis mid_outside : inside (scan ([], false, t) mid) = false.
Hypothesis mid_current : current (scan ([], false, t) mid) = t.
Hypothesis sep_o1 : Py.strip_nl o1 = SEPARATOR.
Hypothesis sep_c1 : Py.strip_nl c1 = SEPARATOR.
Hypothesis sep_o2 : Py.strip_nl o2 = SEPARATOR.
Hypothesis sep_c2 : Py.strip_nl c2 = SEPARATOR.

(** The closed blocks of an input with two blocks [X] and [Y] set in it. *)
Lemma closed_blocks_two (X Y : list string) :
  Forall (fun raw => Py.strip_nl raw ≠ SEPARATOR) X →
  Forall (fun raw => Py.strip_nl raw ≠ SEPARATOR) Y →
  closed_blocks ([], false, None)
    (pre ++ o1 :: X ++ c1 :: mid ++ o2 :: Y ++ c2 :: post)
  = closed_blocks ([], false, None) pre
    ++ (Py.strip_nl <$> X, t) :: closed_blocks ([], false, t) mid
    ++ (Py.strip_nl <$> Y, t) :: closed_blocks ([], false, t) post.
Proof.
  intros HX HY.
  pose proof (scan_outside pre None pre_outside) as Hpre.
  rewrite pre_current in Hpre.
  pose proof (scan_outside mid t mid_outside) as Hmid.
  rewrite mid_current in Hmid.
  destruct (scan_block X o1 c1 t sep_o1 sep_c1 HX) as [HsX HcX].
  destruct (scan_block Y o2 c2 t sep_o2 sep_c2 HY) as [HsY HcY].
  replace (pre ++ o1 :: X ++ c1 :: mid ++ o2 :: Y ++ c2 :: post)
    with (pre ++ (o1 :: X ++ [c1]) ++ mid ++ (o2 :: Y ++ [c2]) ++ post).
  - rewrite closed_blocks_app, Hpre.
    rewrite closed_blocks_app, HsX, HcX.
    rewrite closed_blocks_app, Hmid.
    rewrite closed_blocks_app, HsY, HcY.
    reflexivity.
  - cbn [app]; rewrite <- !app_assoc; reflexivity.
Qed.

Lemma keyed_two (ea em ez : list (list string * option string))
  (X Y : list string) (kX kY : option Location) :
  get_key X = Ok kX → get_key Y = Ok kY →
  keyed (ea ++ (X, t) :: em ++ (Y, t) :: ez)
  = keyed ea ≫= (fun a => keyed em ≫= (fun m => keyed ez ≫= (fun z =>
      Ok (a ++ mkEvent kX (example_text X) t
            :: m ++ mkEvent kY (example_text Y) t :: z)))).
Proof.
  intros HX HY; rewrite keyed_app.
  destruct (keyed ea) as [a|e]; [|reflexivity].
  cbn [mbind result_bind bind keyed]; rewrite HX.
  cbn [mbind result_bind bind]; rewrite keyed_app.
  destruct (keyed em) as [m|e]; [|reflexivity].
  cbn [mbind result_bind bind keyed]; rewrite HY.
  cbn [mbind result_bind bind].
  destruct (keyed ez) as [z|e]; reflexivity.
Qed.

Lemma swap_same_records (A B : list string) (kA kB : option Location) :
  Forall (fun raw => Py.strip_nl raw ≠ SEPARATOR) A →
  Forall (fun raw => Py.strip_nl raw ≠ SEPARATOR) B →
  get_key (Py.strip_nl <$> A) = Ok kA →
  get_key (Py.strip_nl <$> B) = Ok kB →
  kA ≠ kB →
  Forall (fun b => ∀ k, get_key b.1 = Ok k → k ≠ kA ∧ k ≠ kB)
    (closed_blocks ([], false, t) mid) →
  same_records
    (run init (pre ++ o1 :: A ++ c1 :: mid ++ o2 :: B ++ c2 :: post))
    (run init (pre ++ o1 :: B ++ c1 :: mid ++ o2 :: A ++ c2 :: post)).
Proof.
  intros HA HB HkA HkB Hne Hmid.
  rewrite !run_events.
  change (parser_of init) with (([], false, None) : parser).
  rewrite (closed_blocks_two A B HA HB), (closed_blocks_two B A HB HA).
  rewrite (keyed_two _ _ _ _ _ kA kB HkA HkB), (keyed_two _ _ _ _ _ kB kA HkB HkA).
  destruct (keyed (closed_blocks ([], false, None) pre)) as [a|e];
    [|reflexivity].
  destruct (keyed (closed_blocks ([], false, t) mid)) as [m|e] eqn:Hm;
    [|reflexivity].
  destruct (keyed (closed_blocks ([], false, t) post)) as [z|e];
    [|reflexivity].
  cbn [mbind result_bind bind same_records races init].
  intros k.
  destruct (parser_of_with_parser
              (ingest_events [] (a ++ mkEvent kA (example_text (Py.strip_nl <$> A)) t
                 :: m ++ mkEvent kB (example_text (Py.strip_nl <$> B)) t :: z))
              (scan ([], false, None)
                 (pre ++ o1 :: A ++ c1 :: mid ++ o2 :: B ++ c2 :: post)))
    as [_ ->].
  destruct (parser_of_with_parser
              (ingest_events [] (a ++ mkEvent kB (example_text (Py.strip_nl <$> B)) t
                 :: m ++ mkEvent kA (example_text (Py.strip_nl <$> A)) t :: z))
              (scan ([], false, None)
                 (pre ++ o1 :: B ++ c1 :: mid ++ o2 :: A ++ c2 :: post)))
    as [_ ->].
  rewrite !dict_get_ingest_events.
  rewrite record_of_filter; symmetry; rewrite record_of_filter; symmetry.
  f_equal; apply filter_swap; [exact Hne|].
  apply (keyed_keys _ _ (fun k => k ≠ kA ∧ k ≠ kB) Hm Hmid).
Qed.

End SwapProof.

(** C8, as stated, fails.  Two blocks of different keys, each after a status
    line of its own, change places: the record of [f] has test_a in one run
    and test_b in the other.  Two blocks of one key and different text change
    places: the examples of the record come in the other order. *)
Lemma swap_blocks_counterexample :
  ((fun st => tests <$> dict_get (Some (mkLocation "f" "a.c" 1)) (races st))
     <$> run init ["0:00:01 load avg: 1.00 [1/2] test_a"; "==================";
                   "    #0 f a.c:1:2 x"; "==================";
                   "0:00:02 load avg: 1.00 [2/2] test_b"; "==================";
                   "    #0 g b.c:2:1 y"; "=================="]
   = Ok (Some {["test_a"]}) ∧
   (fun st => tests <$> dict_get (Some (mkLocation "f" "a.c" 1)) (races st))
     <$> run init ["0:00:01 load avg: 1.00 [1/2] test_a"; "==================";
                   "    #0 g b.c:2:1 y"; "==================";
                   "0:00:02 load avg: 1.00 [2/2] test_b"; "==================";
                   "    #0 f a.c:1:2 x"; "=================="]
   = Ok (Some {["test_b"]}) ∧
   ({["test_a"]} : gset string) ≠ {["test_b"]}) ∧
  ((fun st => examples <$> dict_get (Some (mkLocation "f" "a.c" 1)) (races st))
     <$> run init ["=================="; "    #0 f a.c:1:2 first"; "==================";
                   "=================="; "    #0 f a.c:1:2 second"; "=================="]
   = Ok (Some ["    #0 f a.c:1:2 first"; "    #0 f a.c:1:2 second"]) ∧
   (fun st => examples <$> dict_get (Some (mkLocation "f" "a.c" 1)) (races st))
     <$> run init ["=================="; "    #0 f a.c:1:2 second"; "==================";
                   "=================="; "    #0 f a.c:1:2 first"; "=================="]
   = Ok (Some ["    #0 f a.c:1:2 second"; "    #0 f a.c:1:2 first"])).
Proof.
  split; [split; [reflexivity | split; [reflexivity|]] | split; reflexivity].
  intros H.
  assert (Hin : "test_a" ∈ ({["test_b"]} : gset string))
    by (rewrite <- H; apply elem_of_singleton; reflexivity).
  apply elem_of_singleton in Hin; discriminate Hin.
Qed.

(** C8, amended: two closed blocks change places, the rest of the input as
    it is.  When the blocks have different keys, the same test is current at
    both closing separators, and no block closed between them has the key of
    either, the two runs end with the same record under every key, or both
    raise the same exception. *)
Theorem swap_independent_blocks (pre mid post A B : list string)
  (o1 c1 o2 c2 : string) (t : option string) (kA kB : option Location) :
  inside (scan ([], false, None) pre) = false →
  current (scan ([], false, None) pre) = t →
  inside (scan ([], false, t) mid) = false →
  current (scan ([], false, t) mid) = t →
  Py.strip_nl o1 = SEPARATOR → Py.strip_nl c1 = SEPARATOR →
  Py.strip_nl o2 = SEPARATOR → Py.strip_nl c2 = SEPARATOR →
  Forall (fun raw => Py.strip_nl raw ≠ SEPARATOR) A →
  Forall (fun raw => Py.strip_nl raw ≠ SEPARATOR) B →
  get_key (Py.strip_nl <$> A) = Ok kA →
  get_key (Py.strip_nl <$> B) = Ok kB →
  kA ≠ kB →
  Forall (fun b => ∀ k, get_key b.1 = Ok k → k ≠ kA ∧ k ≠ kB)
    (closed_blocks ([], false, t) mid) →
  same_records
    (run init (pre ++ o1 :: A ++ c1 :: mid ++ o2 :: B ++ c2 :: post))
    (run init (pre ++ o1 :: B ++ c1 :: mid ++ o2 :: A ++ c2 :: post)).
Proof.
  intros Hpo Hpc Hmo Hmc H1 H2 H3 H4.
  exact (swap_same_records pre mid post o1 c1 o2 c2 t Hpo Hpc Hmo Hmc
           H1 H2 H3 H4 A B kA kB).
Qed.

Lemma swap_independent_blocks_witness :
  same_records
    (run init (["0:00:01 load avg: 1.00 [1/2] test_a"]
               ++ "==================" :: ["    #0 f a.c:1:2 x"]
               ++ "==================" :: ["noise"; "=================="; "    #0 h c.c:3:1 z"; "=================="]
               ++ "==================" :: ["    #0 g b.c:2:1 y"]
               ++ "==================" :: ["tail"]))
    (run init (["0:00:01 load avg: 1.00 [1/2] test_a"]
               ++ "==================" :: ["    #0 g b.c:2:1 y"]
               ++ "==================" :: ["noise"; "=================="; "    #0 h c.c:3:1 z"; "=================="]
               ++ "==================" :: ["    #0 f a.c:1:2 x"]
               ++ "==================" :: ["tail"])).
Proof.
  apply (swap_independent_blocks
           ["0:00:01 load avg: 1.00 [1/2] test_a"]
           ["noise"; "=================="; "    #0 h c.c:3:1 z"; "=================="]
           ["tail"] ["    #0 f a.c:1:2 x"] ["    #0 g b.c:2:1 y"]
           "==================" "==================" "==================" "=================="
           (Some "test_a")
           (Some (mkLocation "f" "a.c" 1)) (Some (mkLocation "g" "b.c" 2)));
    try reflexivity.
  - repeat constructor; discriminate.
  - repeat constructor; discriminate.
  - discriminate.
  - repeat constructor; cbn in H; injection H as <-; discriminate.
Defined.

(** * The report *)

Section Report.

Definition is_row (o : out) : bool :=
  match o with
  | Row _ _ _ _ _ _ => true
  | _ => false
  end.

Definition is_example (o : out) : bool :=
  match o with
  | Example _ => true
  | _ => false
  end.

(** The row [render_rows] prints for a record under a Location. *)
Definition row_of (lc : Location) (race : Race) : out :=
  Row (func lc) (path lc) (lineno lc) (length (examples race))
      (Py.join ", " (sorted_tests (tests race))) (to_id lc ++ "_examples")%string.

(** The records before the first one under the key None. *)
Fixpoint before_none (l : list (option Location * Race))
  : list (Location * Race) :=
  match l with
  | (Some lc, race) :: l' => (lc, race) :: before_none l'
  | _ => []
  end.

Lemma render_rows_result (l : list (option Location * Race)) :
  (render_rows l).2 = if decide (None ∈ l.*1) then Raise AttributeError else Ok ().
Proof.
  induction l as [|[[lc|] race] l IH]; cbn [render_rows fmap list_fmap fst].
  - destruct (decide (None ∈ [])) as [H|_]; [inversion H | reflexivity].
  - destruct (render_rows l) as [o r]; cbn [snd] in *; rewrite IH.
    destruct (decide (None ∈ l.*1)) as [Hin|Hnot];
      destruct (decide (None ∈ Some lc :: l.*1)) as [Hin'|Hnot']; try reflexivity.
    + exfalso; apply Hnot'; right; exact Hin.
    + exfalso; apply elem_of_cons in Hin' as [Heq|Hin']; [discriminate | contradiction].
  - cbn [snd]; destruct (decide (None ∈ None :: l.*1)) as [_|Hnot]; [reflexivity|].
    exfalso; apply Hnot; left.
Qed.

Lemma render_rows_no_frame (l : list (option Location * Race)) :
  (Preamble ∉ (render_rows l).1) ∧ (Trailer ∉ (render_rows l).1).
Proof.
  induction l as [|[[lc|] race] l IH]; cbn [render_rows].
  - split; apply not_elem_of_nil.
  - destruct (render_rows l) as [o r]; cbn [fst] in *; destruct IH as [IH1 IH2].
    assert (Hex : ∀ x, x ∈ (Example <$> examples race) → is_example x = true).
    { intros x Hx; apply list_elem_of_fmap in Hx as (e & -> & _); reflexivity. }
    split; intros H; repeat (apply elem_of_cons in H as [H|H]; [discriminate H|]);
      apply elem_of_app in H as [H|H];
      try (apply Hex in H; discriminate H);
      apply elem_of_cons in H as [H|H]; try discriminate H; contradiction.
  - split; apply not_elem_of_nil.
Qed.

(** The rows printed are those of the records before the first one under
    the key None, in order. *)
Lemma render_rows_rows (l : list (option Location * Race)) :
  filter (fun o => is_row o = true) (render_rows l).1
  = (fun kv => row_of kv.1 kv.2) <$> before_none l.
Proof.
  induction l as [|[[lc|] race] l IH]; cbn [render_rows before_none]; [reflexivity| |reflexivity].
  destruct (render_rows l) as [o r]; cbn [fst snd fmap list_fmap] in *.
  rewrite filter_cons; cbn [is_row].
  destruct (decide (true = true)); [|contradiction]; unfold row_of at 1; f_equal.
  rewrite filter_cons; cbn [is_row].
  destruct (decide (false = true)); [discriminate|].
  rewrite filter_app, filter_cons; cbn [is_row].
  destruct (decide (false = true)); [discriminate|].
  rewrite <- IH.
  assert (Hnone : filter (fun o => is_row o = true) (Example <$> examples race) = []).
  { clear; induction (examples race) as [|e es IHe]; [reflexivity|].
    cbn [fmap list_fmap]; rewrite filter_cons; cbn [is_row].
    destruct (decide (false = true)); [discriminate | exact IHe]. }
  rewrite Hnone; reflexivity.
Qed.

Lemma before_none_all (l : list (option Location * Race)) :
  None ∉ l.*1 → (fun kv : Location * Race => (Some kv.1, kv.2)) <$> before_none l = l.
Proof.
  induction l as [|[[lc|] race] l IH]; cbn [before_none fmap list_fmap fst snd].
  - reflexivity.
  - rewrite not_elem_of_cons; intros [_ H]; rewrite (IH H); reflexivity.
  - intros H; exfalso; apply H; left.
Qed.

Lemma sorted_races_keys (d : dict) (k : option Location) :
  k ∈ (sorted_races d).*1 ↔ k ∈ d.*1.
Proof.
  assert (Hp : (sorted_races d).*1 ≡ₚ d.*1)
    by (apply fmap_Permutation; symmetry; apply sorted_races_perm).
  rewrite Hp; reflexivity.
Qed.

Lemma render_races_cases (d : dict) :
  (None ∈ d.*1 →
     (render_races d).2 = Raise AttributeError ∧
     head (render_races d).1 = Some Preamble ∧
     Trailer ∉ (render_races d).1) ∧
  (None ∉ d.*1 →
     (render_races d).2 = Ok () ∧
     head (render_races d).1 = Some Preamble ∧
     last (render_races d).1 = Some Trailer ∧
     filter (fun o => is_row o = true) (render_races d).1
     = (fun kv => row_of kv.1 kv.2) <$> before_none (sorted_races d) ∧
     (fun kv : Location * Race => (Some kv.1, kv.2)) <$> before_none (sorted_races d)
     = sorted_races d).
Proof.
  unfold render_races.
  pose proof (render_rows_result (sorted_races d)) as Hres.
  pose proof (render_rows_no_frame (sorted_races d)) as [_ Hnt].
  pose proof (render_rows_rows (sorted_races d)) as Hrows.
  destruct (render_rows (sorted_races d)) as [o r]; cbn [fst snd] in *.
  split; intros Hkey.
  - destruct (decide (None ∈ (sorted_races d).*1)) as [_|Hnot];
      [|exfalso; apply Hnot, sorted_races_keys, Hkey].
    subst r; cbn [fst snd]; split; [reflexivity|]. split; [reflexivity|].
    intros H; apply elem_of_cons in H as [H|H]; [discriminate H | contradiction].
  - destruct (decide (None ∈ (sorted_races d).*1)) as [Hin|Hnot];
      [exfalso; apply Hkey, sorted_races_keys, Hin|].
    subst r; cbn [fst snd]; split; [reflexivity|]. split; [reflexivity|].
    split; [|split].
    + change (Preamble :: o ++ [Trailer]) with ((Preamble :: o) ++ [Trailer]).
      apply last_snoc.
    + rewrite filter_cons; cbn [is_row].
      destruct (decide (false = true)); [discriminate|].
      rewrite filter_app, Hrows, filter_cons; cbn [is_row].
      destruct (decide (false = true)); [discriminate|].
      rewrite filter_nil, app_nil_r; reflexivity.
    + apply before_none_all, Hnot.
Qed.

End Report.

(** * Which keys the dictionary holds *)

Section Keys.

Lemma record_of_filter_nil (k : option Location) (evs : list RaceEvent) :
  filter (has_key k) evs = [] → record_of k None evs = None.
Proof. intros H; rewrite record_of_filter, H; reflexivity. Qed.

(** The keys of the dictionary are the keys of the events ingested. *)
Lemma ingest_events_keys (evs : list RaceEvent) (k : option Location) :
  k ∈ (ingest_events [] evs).*1 ↔ Exists (has_key k) evs.
Proof.
  split.
  - intros Hin; destruct (filter (has_key k) evs) as [|ev own] eqn:Hown.
    + exfalso; revert Hin; apply dict_get_None.
      rewrite dict_get_ingest_events; apply record_of_filter_nil, Hown.
    + assert (Hev : ev ∈ filter (has_key k) evs) by (rewrite Hown; left).
      apply list_elem_of_filter in Hev as [Hk Hev].
      apply Exists_exists; eauto.
  - intros Hex; apply Exists_exists in Hex as (ev & Hev & Hk).
    destruct (dict_get k (ingest_events [] evs)) as [r|] eqn:Hget.
    + apply dict_get_elem in Hget.
      apply list_elem_of_fmap; exists (k, r); split; [reflexivity | exact Hget].
    + exfalso; rewrite dict_get_ingest_events, record_of_filter in Hget.
      cbn [dict_get] in Hget.
      pose proof (filter_has_key k evs) as Hall.
      assert (Hin : ev ∈ filter (has_key k) evs) by (apply list_elem_of_filter; auto).
      destruct (filter (has_key k) evs) as [|ev0 own]; [inversion Hin|].
      rewrite (record_of_first _ _ _ Hall) in Hget; discriminate.
Qed.

Lemma run_races (infile : list string) (evs : list RaceEvent) :
  keyed (closed_blocks ([], false, None) infile) = Ok evs →
  ∃ st, run init infile = Ok st ∧ races st = ingest_events [] evs.
Proof.
  intros Hk; pose proof (run_events infile init) as Hrun.
  change (parser_of init) with (([], false, None) : parser) in Hrun.
  rewrite Hk in Hrun; cbn [mbind result_bind bind races init] in Hrun.
  eexists; split; [exact Hrun|].
  apply parser_of_with_parser.
Qed.

End Keys.

(** X1: when every closed block has a key and one of them has the key None
    (no qualifying frame), [main] prints the preamble, never the trailer, and
    ends in AttributeError: [loc.to_id()] is called on None at line 78. *)
Theorem absent_key_breaks_report (infile : list string) (evs : list RaceEvent) :
  keyed (closed_blocks ([], false, None) infile) = Ok evs →
  Exists (has_key None) evs →
  (main infile).2 = Raise AttributeError ∧
  head (main infile).1 = Some Preamble ∧
  Trailer ∉ (main infile).1.
Proof.
  intros Hk Hex; destruct (run_races _ _ Hk) as (st & Hrun & Hraces).
  unfold main; rewrite Hrun, Hraces.
  apply render_races_cases, ingest_events_keys, Hex.
Qed.

Lemma absent_key_breaks_report_witness :
  (main ["=================="; "    #0 f a.c:1:2 x"; "==================";
         "=================="; "    #0 _Py_atomic_store mem.c:3:1 y"; "=================="]).2
    = Raise AttributeError ∧
  head (main ["=================="; "    #0 f a.c:1:2 x"; "==================";
         "=================="; "    #0 _Py_atomic_store mem.c:3:1 y"; "=================="]).1
    = Some Preamble ∧
  Trailer ∉ (main ["=================="; "    #0 f a.c:1:2 x"; "==================";
         "=================="; "    #0 _Py_atomic_store mem.c:3:1 y"; "=================="]).1.
Proof.
  apply (absent_key_breaks_report
           ["=================="; "    #0 f a.c:1:2 x"; "==================";
            "=================="; "    #0 _Py_atomic_store mem.c:3:1 y"; "=================="]
           [mkEvent (Some (mkLocation "f" "a.c" 1)) "    #0 f a.c:1:2 x" None;
            mkEvent None "    #0 _Py_atomic_store mem.c:3:1 y" None]).
  - reflexivity.
  - right; left; reflexivity.
Defined.

(** X2: when every closed block has a Location as its key, [main] ends
    normally; what it prints starts with the preamble, ends with the trailer,
    and its rows are those of the records of [sorted_races], one row for each
    record, in that order, each with the number of examples of its record. *)
Theorem report_rows_follow_snapshot (infile : list string) (evs : list RaceEvent) :
  keyed (closed_blocks ([], false, None) infile) = Ok evs →
  Forall (fun ev => ev_key ev ≠ None) evs →
  ∃ st recs,
    run init infile = Ok st ∧
    (main infile).2 = Ok () ∧
    head (main infile).1 = Some Preamble ∧
    last (main infile).1 = Some Trailer ∧
    sorted_races (races st) = (fun kv : Location * Race => (Some kv.1, kv.2)) <$> recs ∧
    filter (fun o => is_row o = true) (main infile).1
    = (fun kv => row_of kv.1 kv.2) <$> recs.
Proof.
  intros Hk Hall; destruct (run_races _ _ Hk) as (st & Hrun & Hraces).
  assert (Hnone : None ∉ (races st).*1).
  { rewrite Hraces, ingest_events_keys; intros Hex.
    apply Exists_exists in Hex as (ev & Hev & Hkey).
    rewrite Forall_forall in Hall; exact (Hall ev Hev Hkey). }
  destruct (render_races_cases (races st)) as [_ H].
  destruct (H Hnone) as (Hres & Hhead & Hlast & Hrows & Hrecs).
  exists st, (before_none (sorted_races (races st))).
  unfold main; rewrite Hrun; auto 10.
Qed.

Lemma report_rows_follow_snapshot_witness :
  ∃ st recs,
    run init ["=================="; "    #0 f a.c:1:2 x"; "=================="] = Ok st ∧
    (main ["=================="; "    #0 f a.c:1:2 x"; "=================="]).2 = Ok () ∧
    head (main ["=================="; "    #0 f a.c:1:2 x"; "=================="]).1
      = Some Preamble ∧
    last (main ["=================="; "    #0 f a.c:1:2 x"; "=================="]).1
      = Some Trailer ∧
    sorted_races (races st) = (fun kv : Location * Race => (Some kv.1, kv.2)) <$> recs ∧
    filter (fun o => is_row o = true)
      (main ["=================="; "    #0 f a.c:1:2 x"; "=================="]).1
    = (fun kv => row_of kv.1 kv.2) <$> recs.
Proof.
  apply (report_rows_follow_snapshot
           ["=================="; "    #0 f a.c:1:2 x"; "=================="]
           [mkEvent (Some (mkLocation "f" "a.c" 1)) "    #0 f a.c:1:2 x" None]).
  - reflexivity.
  - repeat constructor; discriminate.
Defined.

(** * Inputs without a separator *)

Section NoBlock.

Lemma closed_blocks_no_separator (infile : list string) (c : option string) :
  Forall (fun raw => Py.strip_nl raw ≠ SEPARATOR) infile →
  closed_blocks ([], false, c) infile = [].
Proof.
  revert c; induction infile as [|raw rest IH]; intros c Hall; [reflexivity|].
  inversion Hall as [|? ? Hraw Hrest]; subst.
  cbn [closed_blocks scan_step].
  destruct (TEST_STATUS_RE (Py.strip_nl raw)); [apply IH, Hrest|].
  destruct (String.eqb_spec (Py.strip_nl raw) SEPARATOR); [contradiction|].
  apply IH, Hrest.
Qed.

End NoBlock.

(** X3: an input in which no line is the separator (the empty input among
    them) gives the empty report: preamble and trailer, no row, no error. *)
Theorem no_separator_empty_report (infile : list string) :
  Forall (fun raw => Py.strip_nl raw ≠ SEPARATOR) infile →
  main infile = ([Preamble; Trailer], Ok ()).
Proof.
  intros Hall.
  destruct (run_races infile [])
    as (st & Hrun & Hraces).
  { rewrite closed_blocks_no_separator by exact Hall; reflexivity. }
  unfold main; rewrite Hrun, Hraces; reflexivity.
Qed.

Lemma no_separator_empty_report_witness :
  main ["0:00:01 load avg: 1.00 [1/2] test_a"; "test_a passed"; "=====";
        "    #0 f a.c:1:2 x"]
  = ([Preamble; Trailer], Ok ()).
Proof.
  apply (no_separator_empty_report
           ["0:00:01 load avg: 1.00 [1/2] test_a"; "test_a passed"; "=====";
            "    #0 f a.c:1:2 x"]).
  repeat constructor; discriminate.
Defined.

(** * Ties in the order of the report *)

Section Stable.

Definition count_is (n : nat) (kv : option Location * Race) : Prop :=
  example_count kv = n.

Global Instance count_is_dec n kv : Decision (count_is n kv).
Proof. unfold count_is; apply _. Defined.

Lemma insert_desc_filter (n : nat) (x : option Location * Race)
  (l : list (option Location * Race)) :
  filter (count_is n) (insert_desc x l) = filter (count_is n) (x :: l).
Proof.
  induction l as [|y l IH]; cbn [insert_desc]; [reflexivity|].
  destruct (Nat.ltb_spec (example_count x) (example_count y)) as [Hlt|Hge];
    [|reflexivity].
  rewrite (filter_cons _ y), IH, !filter_cons.
  destruct (decide (count_is n y)) as [Hy|Hy];
    destruct (decide (count_is n x)) as [Hx|Hx]; try reflexivity.
  unfold count_is in Hx, Hy; lia.
Qed.

End Stable.

(** X4: [sorted] is stable: the records with a given number of examples
    stand in [sorted_races] in the order they have in the dictionary, the
    order in which their keys were first inserted. *)
Theorem snapshot_keeps_order_of_ties (d : dict) (n : nat) :
  filter (count_is n) (sorted_races d) = filter (count_is n) d.
Proof.
  induction d as [|x d IH]; [reflexivity|].
  cbn [sorted_races foldr]; fold (sorted_races d).
  rewrite insert_desc_filter, !filter_cons, IH; reflexivity.
Qed.

(** * The shape of the dictionary *)

Section Shape.

(** [k] joins the keys, last, unless it is among them. *)
Definition add_key (ks : list (option Location)) (k : option Location)
  : list (option Location) :=
  if decide (k ∈ ks) then ks else ks ++ [k].

Definition total_examples (d : dict) : nat :=
  foldr (fun kv n => (example_count kv + n)%nat) 0%nat d.

Definition keyed_by_loc (kv : option Location * Race) : Prop := loc kv.2 = kv.1.

Lemma ingest_keys (k : option Location) (e : string) (t : option string)
  (d : dict) :
  (ingest k e t d).*1 = add_key d.*1 k.
Proof.
  unfold add_key; destruct (dict_get k d) as [r|] eqn:Hget.
  - rewrite (ingest_present _ _ _ _ _ Hget), dict_mutate_keys.
    destruct (decide (k ∈ d.*1)) as [_|Hnot]; [reflexivity|].
    apply dict_get_None in Hnot; congruence.
  - rewrite (ingest_absent _ _ _ _ Hget), fmap_app.
    destruct (decide (k ∈ d.*1)) as [Hin|_]; [|reflexivity].
    apply dict_get_None in Hget; contradiction.
Qed.

Lemma total_examples_app (d1 d2 : dict) :
  total_examples (d1 ++ d2) = (total_examples d1 + total_examples d2)%nat.
Proof.
  unfold total_examples; induction d1 as [|kv d1 IH]; [reflexivity|].
  cbn [app foldr]; rewrite IH; lia.
Qed.

Lemma total_examples_mutate (f : Race → Race) (k : option Location) (d : dict)
  (r : Race) :
  dict_get k d = Some r →
  (∀ x, length (examples (f x)) = S (length (examples x))) →
  total_examples (dict_mutate f k d) = S (total_examples d).
Proof.
  intros Hget Hf; unfold total_examples.
  induction d as [|[k' r'] d IH]; [discriminate|].
  cbn [dict_get dict_mutate] in *.
  destruct (decide (k' = k)) as [->|Hne].
  - cbn [foldr]; unfold example_count; cbn [snd]; rewrite Hf; lia.
  - cbn [foldr]; rewrite (IH Hget); lia.
Qed.

Lemma touch_length (e : string) (t : option string) (r : Race) :
  length (examples (touch e t r)) = S (length (examples r)).
Proof.
  destruct (touch_fields e t r) as (-> & _ & _); rewrite length_app; cbn; lia.
Qed.

Lemma ingest_total_examples (k : option Location) (e : string)
  (t : option string) (d : dict) :
  total_examples (ingest k e t d) = S (total_examples d).
Proof.
  destruct (dict_get k d) as [r|] eqn:Hget.
  - rewrite (ingest_present _ _ _ _ _ Hget).
    apply (total_examples_mutate _ _ _ r Hget), touch_length.
  - rewrite (ingest_absent _ _ _ _ Hget), total_examples_app.
    unfold total_examples at 2; cbn [foldr]; unfold example_count; cbn [snd].
    rewrite touch_length; cbn; lia.
Qed.

Lemma ingest_keyed_by_loc (k : option Location) (e : string)
  (t : option string) (d : dict) :
  Forall keyed_by_loc d → Forall keyed_by_loc (ingest k e t d).
Proof.
  intros Hd; destruct (dict_get k d) as [r|] eqn:Hget.
  - rewrite (ingest_present _ _ _ _ _ Hget).
    apply Forall_dict_mutate; [|exact Hd].
    unfold keyed_by_loc; cbn [fst snd]; intros r0 H0.
    destruct (touch_fields e t r0) as (_ & -> & _); exact H0.
  - rewrite (ingest_absent _ _ _ _ Hget); apply Forall_app; split; [exact Hd|].
    constructor; [|constructor]. unfold keyed_by_loc; cbn [fst snd].
    destruct (touch_fields e t (Race_init k)) as (_ & -> & _); reflexivity.
Qed.

Lemma ingest_events_shape (evs : list RaceEvent) (d : dict) :
  (ingest_events d evs).*1 = foldl add_key d.*1 (ev_key <$> evs) ∧
  total_examples (ingest_events d evs) = (total_examples d + length evs)%nat ∧
  (Forall keyed_by_loc d → Forall keyed_by_loc (ingest_events d evs)).
Proof.
  revert d; induction evs as [|ev evs IH]; intros d.
  - split; [reflexivity|]; split; [|auto].
    cbn [ingest_events foldl length]; rewrite Nat.add_0_r; reflexivity.
  - cbn [ingest_events foldl fmap list_fmap length].
    fold (ingest_events (ingest_event d ev) evs).
    destruct (IH (ingest_event d ev)) as (Hk & Ht & Hl).
    unfold ingest_event in *.
    rewrite Hk, Ht, ingest_keys, ingest_total_examples.
    split; [reflexivity|]; split; [lia|].
    intros Hd; apply Hl, ingest_keyed_by_loc, Hd.
Qed.

End Shape.

(** X5: when every closed block has a key, the dictionary the loop ends with
    has its keys in the order in which they first occur among the closed
    blocks, each once; every record holds its own key in [loc]; and the
    numbers of examples of the records add up to the number of closed
    blocks. *)
Theorem dictionary_shape (infile : list string) (evs : list RaceEvent) :
  keyed (closed_blocks ([], false, None) infile) = Ok evs →
  ∃ st,
    run init infile = Ok st ∧
    (races st).*1 = foldl add_key [] (ev_key <$> evs) ∧
    NoDup (races st).*1 ∧
    Forall keyed_by_loc (races st) ∧
    total_examples (races st) = length evs.
Proof.
  intros Hk; destruct (run_races _ _ Hk) as (st & Hrun & Hraces).
  destruct (ingest_events_shape evs []) as (Hkeys & Htot & Hloc).
  exists st; rewrite Hraces; split; [exact Hrun|].
  split; [exact Hkeys|].
  split; [apply ingest_events_NoDup; constructor|].
  split; [apply Hloc; constructor | exact Htot].
Qed.

Lemma dictionary_shape_witness :
  ∃ st,
    run init ["=================="; "    #0 f a.c:1:2 x"; "==================";
              "=================="; "no frame"; "==================";
              "=================="; "    #0 f a.c:1:7 y"; "=================="] = Ok st ∧
    (races st).*1
      = foldl add_key []
          (ev_key <$> [mkEvent (Some (mkLocation "f" "a.c" 1)) "    #0 f a.c:1:2 x" None;
                       mkEvent None "no frame" None;
                       mkEvent (Some (mkLocation "f" "a.c" 1)) "    #0 f a.c:1:7 y" None]) ∧
    NoDup (races st).*1 ∧
    Forall keyed_by_loc (races st) ∧
    total_examples (races st)
      = length [mkEvent (Some (mkLocation "f" "a.c" 1)) "    #0 f a.c:1:2 x" None;
                mkEvent None "no frame" None;
                mkEvent (Some (mkLocation "f" "a.c" 1)) "    #0 f a.c:1:7 y" None].
Proof.
  apply (dictionary_shape
           ["=================="; "    #0 f a.c:1:2 x"; "==================";
            "=================="; "no frame"; "==================";
            "=================="; "    #0 f a.c:1:7 y"; "=================="]).
  reflexivity.
Defined.

(** * What the status pattern captures *)

Section Capture.

(** A pattern that, when it matches, hands the rest of the text to its
    continuation. *)
Definition takes {A} (P : Re.pat A) : Prop :=
  ∀ k s v, P k s = Some v → ∃ h r, s = (h ++ r)%string ∧ k r = Some v.

(** The text ends in a part the continuation accepts with result [v]. *)
Definition reaches {A} (line : string) (k : string → option A) (v : A) : Prop :=
  ∃ head tail, line = (head ++ tail)%string ∧ k tail = Some v.

Lemma reaches_step {A} (P : Re.pat A) (k : string → option A) (line : string)
  (v : A) :
  takes P → reaches line (P k) v → reaches line k v.
Proof.
  intros HP (head & tail & -> & H); apply HP in H as (h & r & -> & H).
  exists (head ++ h)%string, r; split; [symmetry; apply str_app_assoc | exact H].
Qed.

Lemma cls_inv {A} (p : ascii → bool) (k : string → option A) (s : string) (v : A) :
  Re.cls p k s = Some v → ∃ c r, s = String c r ∧ p c = true ∧ k r = Some v.
Proof.
  unfold Re.cls; destruct s as [|c r]; [discriminate|].
  destruct (p c) eqn:Hc; [|discriminate]; eauto.
Qed.

Lemma takes_cls {A} (p : ascii → bool) : takes (@Re.cls A p).
Proof.
  intros k s v H; apply cls_inv in H as (c & r & -> & _ & H).
  exists (String c EmptyString), r; split; [reflexivity | exact H].
Qed.

Lemma star_inv {A} (p : ascii → bool) (k : string → option A) (s : string) (v : A) :
  Re.star p k s = Some v →
  ∃ h r, s = (h ++ r)%string ∧ all_chars p h = true ∧ k r = Some v.
Proof.
  induction s as [|c s IH]; cbn [Re.star].
  - intros H; exists EmptyString, EmptyString; auto.
  - destruct (p c) eqn:Hc.
    + destruct (Re.star p k s) as [w|] eqn:Hs.
      * intros [= ->]; destruct (IH eq_refl) as (h & r & -> & Hh & Hk).
        exists (String c h), r; split; [reflexivity|].
        split; [cbn; rewrite Hc; exact Hh | exact Hk].
      * intros H; exists EmptyString, (String c s); auto.
    + intros H; exists EmptyString, (String c s); auto.
Qed.

Lemma takes_plus {A} (p : ascii → bool) : takes (@Re.plus A p).
Proof.
  intros k s v H; unfold Re.plus in H.
  apply cls_inv in H as (c & r & -> & _ & H).
  apply star_inv in H as (h & r' & -> & _ & H).
  exists (String c h), r'; split; [reflexivity | exact H].
Qed.

Lemma takes_lit {A} (c : ascii) : takes (@Re.lit A c).
Proof. apply takes_cls. Qed.

Lemma takes_dot {A} : takes (@Re.dot A).
Proof. apply takes_cls. Qed.

Lemma str_inv {A} (t : string) (k : string → option A) (s : string) (v : A) :
  Re.str t k s = Some v → ∃ r, s = (t ++ r)%string ∧ k r = Some v.
Proof.
  revert s; induction t as [|c t IH]; intros s; cbn [Re.str].
  - intros H; exists s; auto.
  - intros H; apply cls_inv in H as (x & r & -> & Hx & H).
    apply Ascii.eqb_eq in Hx; subst x.
    apply IH in H as (r' & -> & H); exists r'; auto.
Qed.

Lemma takes_str {A} (t : string) : takes (@Re.str A t).
Proof. intros k s v H; apply str_inv in H as (r & -> & H); eauto. Qed.

Lemma takes_opt {A} (c : ascii) : takes (@Re.opt A c).
Proof.
  intros k s v H; unfold Re.opt in H.
  destruct (Re.lit c k s) as [w|] eqn:Hl.
  - injection H as ->; apply takes_lit in Hl; exact Hl.
  - exists EmptyString, s; auto.
Qed.

(** A greedy repetition before a continuation that never fails takes the
    whole run. *)
Lemma star_greedy {A} (p : ascii → bool) (k : string → option A) (s : string)
  (v : A) :
  (∀ r, k r ≠ None) → Re.star p k s = Some v →
  ∃ h r, s = (h ++ r)%string ∧ all_chars p h = true ∧ stops p r = true ∧
         k r = Some v.
Proof.
  intros Hk; induction s as [|c s IH]; cbn [Re.star].
  - intros H; exists EmptyString, EmptyString; auto.
  - destruct (p c) eqn:Hc.
    + destruct (Re.star p k s) as [w|] eqn:Hs.
      * intros [= ->]; destruct (IH eq_refl) as (h & r & -> & Hh & Hst & Hr).
        exists (String c h), r; split; [reflexivity|].
        split; [cbn; rewrite Hc; exact Hh | auto].
      * exfalso; clear IH; revert Hs; induction s as [|x s IHs]; cbn [Re.star].
        -- apply Hk.
        -- destruct (p x); [|apply Hk].
           destruct (Re.star p k s); [discriminate | intros _; apply IHs; reflexivity].
    + intros H; exists EmptyString, (String c s).
      split; [reflexivity|]. split; [reflexivity|].
      split; [cbn; rewrite Hc; reflexivity | exact H].
Qed.

(** A test name as the pattern captures it. *)
Definition test_name (g : string) : Prop :=
  ∃ name, g = ("test_" ++ name)%string ∧ run_of Py.is_alnum name.

Lemma group_capture (tail g : string) :
  Re.group (fun k => Re.str "test_" (Re.plus Py.is_alnum k)) (fun g _ => Some g) tail
  = Some g →
  ∃ name rest,
    tail = ("test_" ++ name ++ rest)%string ∧ g = ("test_" ++ name)%string ∧
    run_of Py.is_alnum name ∧ stops Py.is_alnum rest = true.
Proof.
  unfold Re.group; intros H.
  apply str_inv in H as (r1 & Htail & H).
  unfold Re.plus in H; apply cls_inv in H as (c & r2 & -> & Hc & H).
  apply star_greedy in H as (h & rest & -> & Hh & Hstop & H); [|discriminate].
  exists (String c h), rest; subst tail.
  assert (Heq : ("test_" ++ String c (h ++ rest))%string
                = (("test_" ++ String c h) ++ rest)%string).
  { rewrite str_app_assoc, str_app_cons; reflexivity. }
  split; [rewrite str_app_cons; reflexivity|].
  split; [|split; [split; [cbn; rewrite Hc; exact Hh | discriminate] | exact Hstop]].
  rewrite Heq, substring_prefix in H; injection H as <-; reflexivity.
Qed.

Lemma TEST_STATUS_RE_capture (line g : string) :
  TEST_STATUS_RE line = Some g →
  ∃ head name rest,
    line = (head ++ "test_" ++ name ++ rest)%string ∧
    g = ("test_" ++ name)%string ∧
    run_of Py.is_alnum name ∧ stops Py.is_alnum rest = true.
Proof.
  intros H.
  assert (Hr : reaches line TEST_STATUS_RE g)
    by (exists EmptyString, line; auto).
  unfold TEST_STATUS_RE in Hr.
  apply (reaches_step (Re.plus Py.is_digit) _ _ _ (takes_plus _)) in Hr.
  apply (reaches_step (Re.lit ":") _ _ _ (takes_lit _)) in Hr.
  apply (reaches_step (Re.plus Py.is_digit) _ _ _ (takes_plus _)) in Hr.
  apply (reaches_step (Re.lit ":") _ _ _ (takes_lit _)) in Hr.
  apply (reaches_step (Re.plus Py.is_digit) _ _ _ (takes_plus _)) in Hr.
  apply (reaches_step (Re.str " load avg: ") _ _ _ (takes_str _)) in Hr.
  apply (reaches_step (Re.plus Py.is_digit) _ _ _ (takes_plus _)) in Hr.
  apply (reaches_step Re.dot _ _ _ takes_dot) in Hr.
  apply (reaches_step (Re.plus Py.is_digit) _ _ _ (takes_plus _)) in Hr.
  apply (reaches_step (Re.str " [") _ _ _ (takes_str _)) in Hr.
  apply (reaches_step (Re.opt " ") _ _ _ (takes_opt _)) in Hr.
  apply (reaches_step (Re.plus Py.is_digit) _ _ _ (takes_plus _)) in Hr.
  apply (reaches_step (Re.lit "/") _ _ _ (takes_lit _)) in Hr.
  apply (reaches_step (Re.plus Py.is_digit) _ _ _ (takes_plus _)) in Hr.
  apply (reaches_step (Re.str "] ") _ _ _ (takes_str _)) in Hr.
  destruct Hr as (head & tail & -> & Hg).
  apply group_capture in Hg as (name & rest & -> & -> & Hname & Hrest).
  exists head, name, rest; auto.
Qed.

End Capture.

(** X6: whatever [TEST_STATUS_RE] captures is [test_] followed by the longest
    run of letters and digits found there: the run is not empty and the text
    after it does not go on with a letter or a digit, so a name with a later
    underscore is cut at that underscore. *)
Theorem status_capture_is_longest_alnum_run (line g : string) :
  TEST_STATUS_RE line = Some g →
  ∃ head name rest,
    line = (head ++ "test_" ++ name ++ rest)%string ∧
    g = ("test_" ++ name)%string ∧
    run_of Py.is_alnum name ∧ stops Py.is_alnum rest = true.
Proof. apply TEST_STATUS_RE_capture. Qed.

Lemma status_capture_is_longest_alnum_run_witness :
  ∃ head name rest,
    "0:00:12 load avg: 1.50 [ 3/400] test_free_threading"
      = (head ++ "test_" ++ name ++ rest)%string ∧
    "test_free" = ("test_" ++ name)%string ∧
    run_of Py.is_alnum name ∧ stops Py.is_alnum rest = true.
Proof.
  apply (status_capture_is_longest_alnum_run
           "0:00:12 load avg: 1.50 [ 3/400] test_free_threading" "test_free").
  reflexivity.
Defined.

(** * Test names in the records *)

Section TestNames.

Definition tests_named (kv : option Location * Race) : Prop :=
  ∀ t, t ∈ tests kv.2 → test_name t.

Definition names_ok (st : state) : Prop :=
  (∀ t, cur_test st = Some t → test_name t) ∧ Forall tests_named (races st).

Lemma touch_tests_named (k : option Location) (e : string) (c : option string)
  (r : Race) :
  (∀ t, c = Some t → test_name t) → tests_named (k, r) →
  tests_named (k, touch e c r).
Proof.
  intros Hc Hr t; cbn [snd].
  destruct (touch_fields e c r) as (_ & _ & ->).
  intros Ht; apply elem_of_union in Ht as [Ht|Ht]; [exact (Hr t Ht)|].
  destruct c as [c|]; cbn in Ht; [|set_solver].
  apply elem_of_singleton in Ht; subst t; apply Hc; reflexivity.
Qed.

Lemma ingest_tests_named (k : option Location) (e : string) (c : option string)
  (d : dict) :
  (∀ t, c = Some t → test_name t) →
  Forall tests_named d → Forall tests_named (ingest k e c d).
Proof.
  intros Hc Hd; destruct (dict_get k d) as [r|] eqn:Hget.
  - rewrite (ingest_present _ _ _ _ _ Hget).
    apply Forall_dict_mutate; [|exact Hd].
    intros r0; apply touch_tests_named, Hc.
  - rewrite (ingest_absent _ _ _ _ Hget); apply Forall_app; split; [exact Hd|].
    constructor; [|constructor].
    apply touch_tests_named; [exact Hc|].
    intros t Ht; cbn in Ht; set_solver.
Qed.

Lemma step_names_ok (st : state) (raw : string) (st' : state) :
  names_ok st → step st raw = Ok st' → names_ok st'.
Proof.
  intros [Hcur Hall] Hstep; destruct (step_cases _ _ _ Hstep) as
    [k Hin Hsep Hk ->|Hin Hne ->|t Hout Hre ->|Hout Hsep ->|Hout Hre Hne ->];
    split; cbn [cur_test races]; auto.
  - apply ingest_tests_named; assumption.
  - intros t' [= <-].
    destruct (TEST_STATUS_RE_capture _ _ Hre) as (head & name & rest & _ & Hg & Hn & _).
    exists name; auto.
Qed.

End TestNames.

(** X7: every test name kept in a record of the dictionary the loop ends
    with is a capture of the status pattern: [test_] followed by a non-empty
    run of letters and digits. *)
Theorem recorded_tests_are_captures (infile : list string) (st : state)
  (k : option Location) (r : Race) (t : string) :
  run init infile = Ok st → dict_get k (races st) = Some r → t ∈ tests r →
  ∃ name, t = ("test_" ++ name)%string ∧ run_of Py.is_alnum name.
Proof.
  intros Hrun Hget Ht.
  assert (Hok : names_ok st).
  { eapply (run_invariant names_ok); [apply step_names_ok | | exact Hrun].
    split; [discriminate | constructor]. }
  destruct Hok as [_ Hall]; rewrite Forall_forall in Hall.
  exact (Hall (k, r) (dict_get_elem _ _ _ Hget) t Ht).
Qed.

Lemma recorded_tests_are_captures_witness :
  ∃ name, "test_free" = ("test_" ++ name)%string ∧ run_of Py.is_alnum name.
Proof.
  apply (recorded_tests_are_captures
           ["0:00:12 load avg: 1.50 [ 3/400] test_free_threading";
            "=================="; "    #0 f a.c:1:2 x"; "=================="]
           {| races := ingest (Some (mkLocation "f" "a.c" 1)) "    #0 f a.c:1:2 x"
                         (Some "test_free") [];
              lines := []; in_race := false; cur_test := Some "test_free" |}
           (Some (mkLocation "f" "a.c" 1))
           (touch "    #0 f a.c:1:2 x" (Some "test_free")
              (Race_init (Some (mkLocation "f" "a.c" 1))))
           "test_free");
    reflexivity.
Defined.

(** * What get_key can give *)

Section GetKeyCases.

Definition non_space (c : ascii) : bool := negb (Py.is_space c).

Lemma skip_space_head (s : string) (c : ascii) (r : string) :
  Py.skip_space s = String c r → Py.is_space c = false.
Proof.
  induction s as [|x s IH]; cbn [Py.skip_space]; [discriminate|].
  destruct (Py.is_space x) eqn:Hx; [exact IH|].
  intros [= -> ->]; exact Hx.
Qed.

Lemma span_token_spec (s t u : string) :
  Py.span_token s = (t, u) →
  s = (t ++ u)%string ∧ all_chars non_space t = true ∧ stops non_space u = true.
Proof.
  revert t u; induction s as [|c s IH]; intros t u; cbn [Py.span_token].
  - intros [= <- <-]; auto.
  - destruct (Py.is_space c) eqn:Hc.
    + intros [= <- <-]; split; [reflexivity|]. split; [reflexivity|].
      cbn; unfold non_space; rewrite Hc; reflexivity.
    + destruct (Py.span_token s) as [t' u'].
      intros [= <- <-]; destruct (IH _ _ eq_refl) as (-> & Ht & Hu).
      split; [reflexivity|]. split; [|exact Hu].
      cbn; unfold non_space at 1; rewrite Hc; exact Ht.
Qed.

(** A field [split] cuts off is not empty and holds no whitespace. *)
Lemma split_field (n : nat) (s t : string) (ts : list string) :
  Py.split (S n) s = t :: ts →
  t ≠ EmptyString ∧ all_chars non_space t = true ∧
  ∃ u, Py.skip_space s = (t ++ u)%string ∧ ts = Py.split n u.
Proof.
  cbn [Py.split]; destruct (Py.skip_space s) as [|c r] eqn:Hs; [discriminate|].
  pose proof (skip_space_head _ _ _ Hs) as Hc.
  destruct (Py.span_token (String c r)) as [t' u'] eqn:Hsp.
  intros [= <- <-].
  destruct (span_token_spec _ _ _ Hsp) as (Heq & Ht & _).
  split; [|split; [exact Ht | exists u'; auto]].
  cbn [Py.span_token] in Hsp; rewrite Hc in Hsp.
  destruct (Py.span_token r); injection Hsp as <- _; discriminate.
Qed.

Lemma last_char_split (c : ascii) (s : string) :
  has_char c s = false ∨
  ∃ a b, s = (a ++ String c b)%string ∧ has_char c b = false.
Proof.
  induction s as [|x s IH]; [left; reflexivity|].
  destruct IH as [Hno|(a & b & -> & Hb)].
  - cbn [has_char]; destruct (Py.ch_eqb x c) eqn:Hx.
    + right; apply Ascii.eqb_eq in Hx; subst x.
      exists EmptyString, s; auto.
    + left; rewrite Hno; reflexivity.
  - right; exists (String x a), b; auto.
Qed.

Lemma basename_has_no_slash (p : string) : has_char "/" (Py.basename p) = false.
Proof.
  destruct (last_char_split "/" p) as [Hno|(a & b & -> & Hb)].
  - rewrite (basename_no_slash _ Hno); exact Hno.
  - rewrite (basename_last_segment _ _ Hb); exact Hb.
Qed.

(** The ways [get_key] can end, read off the line it stops at. *)
Inductive key_case (lines : list string) : result (option Location) → Prop :=
| key_absent :
    Forall (fun l => passed_over l = true) lines →
    key_case lines (Ok None)
| key_found skipped line later m fn loc rest l :
    lines = skipped ++ line :: later →
    Forall (fun l => passed_over l = true) skipped →
    Py.startswith FRAME_MARK line = true →
    Py.split 3 line = [m; fn; loc; rest] →
    PRIMITIVE_RE fn = false →
    make_location fn loc = Ok l →
    key_case lines (Ok (Some l))
| key_error skipped bad later :
    lines = skipped ++ bad :: later →
    Forall (fun l => passed_over l = true) skipped →
    short_frame bad = true ∨ bad_lineno_frame bad = true →
    key_case lines (Raise ValueError).

Lemma make_location_cases (fn loc : string) :
  (∃ l, make_location fn loc = Ok l ∧ func l = fn ∧
        has_char "/" (path l) = false) ∨
  (make_location fn loc = Raise ValueError ∧
   ∃ p l x, Py.split_on ":" loc = [p; l; x] ∧ Py.int l = None).
Proof.
  unfold make_location, split_loc.
  destruct (Py.split_on ":" loc) as [|p [|l [|x [|]]]] eqn:Hs;
    try (left; eexists; split; [reflexivity|]; split;
         [reflexivity | apply basename_has_no_slash]).
  destruct (Py.int l) eqn:Hi.
  - left; eexists; split; [reflexivity|]; split;
      [reflexivity | apply basename_has_no_slash].
  - right; split; [reflexivity|]; eauto.
Qed.

Lemma key_case_cons (line : string) (lines : list string)
  (r : result (option Location)) :
  passed_over line = true → key_case lines r → key_case (line :: lines) r.
Proof.
  intros Hp [Hall|sk ln lt m fn loc rest l -> Hsk Hm Hs Hf Hl|sk bad lt -> Hsk Hbad].
  - apply key_absent; constructor; assumption.
  - apply (key_found _ (line :: sk) ln lt m fn loc rest l); auto.
  - apply (key_error _ (line :: sk) bad lt); auto.
Qed.

Lemma get_key_cases (lines : list string) : key_case lines (get_key lines).
Proof.
  induction lines as [|line lines IH]; [apply key_absent; constructor|].
  cbn [get_key].
  destruct (Py.startswith FRAME_MARK line) eqn:Hm.
  2:{ apply key_case_cons; [unfold passed_over; rewrite Hm; reflexivity | exact IH]. }
  destruct (Py.split 3 line) as [|m [|fn [|loc [|rest [|]]]]] eqn:Hs;
    try (apply (key_error _ [] line lines); [reflexivity | constructor |];
         left; unfold short_frame; rewrite Hm, Hs; reflexivity).
  - destruct (PRIMITIVE_RE fn) eqn:Hf.
    + apply key_case_cons; [|exact IH].
      unfold passed_over; rewrite Hm, Hs; exact Hf.
    + destruct (make_location_cases fn loc)
        as [(l & Hl & _)|(Hl & p & ln & x & Hsp & Hint)]; rewrite Hl; cbn.
      * apply (key_found _ [] line lines m fn loc rest l); auto.
      * apply (key_error _ [] line lines); [reflexivity | constructor |].
        right; unfold bad_lineno_frame; rewrite Hm, Hs, Hf, Hsp, Hint; reflexivity.
  - apply (key_error _ [] line lines); [reflexivity | constructor |].
    right; exfalso.
    assert (Hlen : (length (Py.split 3 line) ≤ 4)%nat).
    { clear; generalize 3%nat; intros n; revert line.
      induction n as [|n IHn]; intros line; cbn [Py.split].
      - destruct (Py.skip_space line); cbn; lia.
      - destruct (Py.skip_space line) as [|c r]; [cbn; lia|].
        destruct (Py.span_token (String c r)) as [t u]; cbn [length].
        specialize (IHn u); lia. }
    rewrite Hs in Hlen; cbn in Hlen; lia.
Qed.

End GetKeyCases.

(** X8: [get_key] gives None exactly for the blocks in which every line is
    either no frame line or a frame line of four fields whose function begins
    with a primitive prefix; the empty block is one of them. *)
Theorem absent_key_iff_all_passed (lines : list string) :
  get_key lines = Ok None ↔ Forall (fun l => passed_over l = true) lines.
Proof.
  split.
  - intros H; pose proof (get_key_cases lines) as Hc; rewrite H in Hc.
    inversion Hc; assumption.
  - intros Hall; rewrite <- (app_nil_r lines), (get_key_passed_over _ _ Hall).
    reflexivity.
Qed.

(** X9: a Location [get_key] returns comes from a frame line of the block:
    its function is the second field of that line, is not empty, holds no
    whitespace and does not begin with [_Py_atomic]; its path holds no
    slash. *)
Theorem returned_location_is_well_formed (lines : list string) (l : Location) :
  get_key lines = Ok (Some l) →
  (∃ line, line ∈ lines ∧ Py.startswith FRAME_MARK line = true ∧
           Py.split 3 line !! 1%nat = Some (func l)) ∧
  func l ≠ EmptyString ∧
  all_chars non_space (func l) = true ∧
  Py.startswith "_Py_atomic" (func l) = false ∧
  has_char "/" (path l) = false.
Proof.
  intros H; pose proof (get_key_cases lines) as Hc; rewrite H in Hc.
  inversion Hc as [|sk line lt m fn loc rest l' -> Hsk Hm Hs Hf Hl Heq|]; subst.
  destruct (make_location_cases fn loc)
    as [(l0 & Hl0 & Hfunc & Hpath)|(Hl0 & _)]; rewrite Hl in Hl0; [|discriminate].
  injection Hl0 as <-; rewrite Hfunc.
  destruct (split_field _ _ _ _ Hs) as (_ & _ & u & _ & Hrest).
  symmetry in Hrest; destruct (split_field _ _ _ _ Hrest) as (Hne & Hns & _).
  split; [|split; [exact Hne | split; [exact Hns | split; [|exact Hpath]]]].
  - exists line; split; [apply elem_of_app; right; left|].
    split; [exact Hm | rewrite Hs; reflexivity].
  - rewrite <- PRIMITIVE_RE_prefix; exact Hf.
Qed.

Lemma returned_location_is_well_formed_witness :
  (∃ line,
     line ∈ ["    #0 _Py_atomic_load_ptr pyatomic_gcc.h:300:18 (python+0x1)";
             "    #1 dict_lookup /src/Objects/dictobject.c:1274:5 (python+0x2)"] ∧
     Py.startswith FRAME_MARK line = true ∧
     Py.split 3 line !! 1%nat
     = Some (func (mkLocation "dict_lookup" "dictobject.c" 1274))) ∧
  func (mkLocation "dict_lookup" "dictobject.c" 1274) ≠ EmptyString ∧
  all_chars non_space (func (mkLocation "dict_lookup" "dictobject.c" 1274)) = true ∧
  Py.startswith "_Py_atomic" (func (mkLocation "dict_lookup" "dictobject.c" 1274))
    = false ∧
  has_char "/" (path (mkLocation "dict_lookup" "dictobject.c" 1274)) = false.
Proof.
  apply (returned_location_is_well_formed
           ["    #0 _Py_atomic_load_ptr pyatomic_gcc.h:300:18 (python+0x1)";
            "    #1 dict_lookup /src/Objects/dictobject.c:1274:5 (python+0x2)"]).
  reflexivity.
Defined.

(** X10: [get_key] raises nothing but ValueError, and only when its scan
    reaches a frame line of fewer than four fields or a qualifying frame line
    whose three-part location has a second part [int] rejects. *)
Theorem get_key_raises_only_on_malformed_frame (lines : list string) (e : exn) :
  get_key lines = Raise e →
  e = ValueError ∧
  ∃ skipped bad later,
    lines = skipped ++ bad :: later ∧
    Forall (fun l => passed_over l = true) skipped ∧
    (short_frame bad = true ∨ bad_lineno_frame bad = true).
Proof.
  intros H; pose proof (get_key_cases lines) as Hc; rewrite H in Hc.
  inversion Hc as [| |sk bad lt Hlines Hsk Hbad He]; subst.
  split; [reflexivity|]; exists sk, bad, lt; auto.
Qed.

Lemma get_key_raises_only_on_malformed_frame_witness :
  ValueError = ValueError ∧
  ∃ skipped bad later,
    ["WARNING"; "    #0 f a.c:12x:3 (python+0x1)"; "    #1 g b.c:1:1 r"]
      = skipped ++ bad :: later ∧
    Forall (fun l => passed_over l = true) skipped ∧
    (short_frame bad = true ∨ bad_lineno_frame bad = true).
Proof.
  apply (get_key_raises_only_on_malformed_frame
           ["WARNING"; "    #0 f a.c:12x:3 (python+0x1)"; "    #1 g b.c:1:1 r"]
           ValueError).
  reflexivity.
Defined.

(** * Lines as the file gives them *)

Section Strip.

Lemma rstrip_nl_newline (s : string) :
  has_char Py.NL s = false →
  Py.rstrip_nl (s ++ String Py.NL EmptyString)%string = s ∧ Py.rstrip_nl s = s.
Proof.
  induction s as [|c s IH]; [split; reflexivity|].
  cbn [has_char]; intros H; apply orb_false_elim in H as [Hc Hs].
  destruct (IH Hs) as [IH1 IH2].
  rewrite str_app_cons; cbn [Py.rstrip_nl]; rewrite IH1, IH2, Hc.
  destruct s; split; reflexivity.
Qed.

Lemma lstrip_nl_head (c : ascii) (s : string) :
  Py.ch_eqb c Py.NL = false → Py.lstrip_nl (String c s) = String c s.
Proof. intros H; cbn [Py.lstrip_nl]; rewrite H; reflexivity. Qed.

End Strip.

(** X11: [line.strip("\n")] takes the newline off the end of a line that has
    no other newline, and leaves a line without newline as it is: the lines
    the file yields are compared and buffered without their terminator. *)
Theorem strip_removes_line_terminator (s : string) :
  has_char Py.NL s = false →
  Py.strip_nl (s ++ String Py.NL EmptyString)%string = s ∧ Py.strip_nl s = s.
Proof.
  intros H; unfold Py.strip_nl; destruct s as [|c s].
  - split; reflexivity.
  - pose proof H as H'; cbn [has_char] in H'.
    apply orb_false_elim in H' as [Hc _].
    rewrite str_app_cons, !lstrip_nl_head by exact Hc.
    rewrite <- str_app_cons; apply rstrip_nl_newline, H.
Qed.

Lemma strip_removes_line_terminator_witness :
  Py.strip_nl (SEPARATOR ++ String Py.NL EmptyString)%string = SEPARATOR ∧
  Py.strip_nl SEPARATOR = SEPARATOR.
Proof. apply (strip_removes_line_terminator SEPARATOR); reflexivity. Defined.

(** * Counting fields *)

Section Tokens.

(** The number of maximal runs without whitespace: [len(s.split())]. *)
Fixpoint count_tokens_from (in_token : bool) (s : string) : nat :=
  match s with
  | EmptyString => 0
  | String c r =>
      if Py.is_space c then count_tokens_from false r
      else ((if in_token then 0 else 1) + count_tokens_from true r)%nat
  end.

Definition count_tokens (s : string) : nat := count_tokens_from false s.

Lemma count_tokens_skip (s : string) :
  count_tokens (Py.skip_space s) = count_tokens s.
Proof.
  unfold count_tokens; induction s as [|c s IH]; [reflexivity|].
  cbn [Py.skip_space count_tokens_from].
  destruct (Py.is_space c) eqn:Hc; [exact IH|].
  cbn [count_tokens_from]; rewrite Hc; reflexivity.
Qed.

Lemma count_tokens_span (s t u : string) :
  Py.span_token s = (t, u) → count_tokens_from true s = count_tokens u.
Proof.
  unfold count_tokens; revert t u; induction s as [|c s IH]; intros t u;
    cbn [Py.span_token count_tokens_from].
  - intros [= <- <-]; reflexivity.
  - destruct (Py.is_space c) eqn:Hc.
    + intros [= <- <-]; cbn [count_tokens_from]; rewrite Hc; reflexivity.
    + destruct (Py.span_token s) as [t' u']; intros [= <- <-].
      rewrite (IH _ _ eq_refl); reflexivity.
Qed.

Lemma split_length (n : nat) (s : string) :
  length (Py.split n s) = Nat.min (S n) (count_tokens s).
Proof.
  revert s; induction n as [|n IH]; intros s; cbn [Py.split];
    rewrite <- (count_tokens_skip s);
    destruct (Py.skip_space s) as [|c r] eqn:Hs; try reflexivity.
  - pose proof (skip_space_head _ _ _ Hs) as Hc.
    unfold count_tokens; cbn [count_tokens_from length]; rewrite Hc; cbn; lia.
  - pose proof (skip_space_head _ _ _ Hs) as Hc.
    destruct (Py.span_token (String c r)) as [t u] eqn:Hsp.
    cbn [length]; rewrite IH.
    pose proof (count_tokens_span _ _ _ Hsp) as Hcnt.
    unfold count_tokens at 2; cbn [count_tokens_from] in Hcnt |- *.
    rewrite Hc in Hcnt |- *; cbn [Nat.add] in Hcnt |- *.
    rewrite Hcnt; lia.
Qed.

End Tokens.

(** X12: [line.split(maxsplit=3)] gives as many fields as the line has runs
    without whitespace, up to four; so the unpacking of line 34 fails exactly
    on the frame lines with fewer than four such runs. *)
Theorem short_frame_iff_fewer_than_four_tokens (line : string) :
  length (Py.split 3 line) = Nat.min 4 (count_tokens line) ∧
  (short_frame line = true ↔
   Py.startswith FRAME_MARK line = true ∧ (count_tokens line < 4)%nat).
Proof.
  pose proof (split_length 3 line) as Hlen; split; [exact Hlen|].
  unfold short_frame; rewrite andb_true_iff, Nat.ltb_lt, Hlen.
  split; intros [Hm Hc]; (split; [exact Hm | lia]).
Qed.

(** * Identifiers of the rows *)

Section Ids.

Lemma to_int_not_nil (n : Z) :
  Z.to_int n ≠ Decimal.Pos Decimal.Nil ∧ Z.to_int n ≠ Decimal.Neg Decimal.Nil.
Proof.
  split; intros H; pose proof (DecimalZ.of_to n) as Hn; rewrite H in Hn;
    cbn in Hn; subst n; discriminate H.
Qed.

Lemma str_of_int_inj (a b : Z) : str_of_int a = str_of_int b → a = b.
Proof.
  unfold str_of_int; intros H.
  destruct (to_int_not_nil a) as [Ha1 Ha2], (to_int_not_nil b) as [Hb1 Hb2].
  pose proof (NilZero.isi _ Ha1 Ha2) as Ia.
  pose proof (NilZero.isi _ Hb1 Hb2) as Ib.
  rewrite H, Ib in Ia; injection Ia as Ia.
  symmetry; apply DecimalZ.to_int_inj, Ia.
Qed.

Lemma colon_split_unique (a a' b b' : string) :
  has_char ":" a = false → has_char ":" a' = false →
  (a ++ String ":" b)%string = (a' ++ String ":" b')%string →
  a = a' ∧ b = b'.
Proof.
  revert a'; induction a as [|x a IH]; intros [|x' a'] Ha Ha' H.
  - rewrite !str_app_nil in H; injection H as ->; auto.
  - rewrite str_app_nil, str_app_cons in H; injection H as <- _.
    cbn in Ha'; discriminate Ha'.
  - rewrite str_app_nil, str_app_cons in H; injection H as -> _.
    cbn in Ha; discriminate Ha.
  - rewrite !str_app_cons in H; injection H as -> H.
    cbn [has_char] in Ha, Ha'.
    apply orb_false_elim in Ha as [_ Ha]; apply orb_false_elim in Ha' as [_ Ha'].
    destruct (IH a' Ha Ha' H) as [-> ->]; auto.
Qed.

End Ids.

(** X13: [to_id] tells Locations apart as long as neither function nor file
    holds a colon: two such Locations with the same identifier are equal, so
    their rows have different [examples_id]. *)
Theorem to_id_injective_without_colon (l1 l2 : Location) :
  has_char ":" (func l1) = false → has_char ":" (path l1) = false →
  has_char ":" (func l2) = false → has_char ":" (path l2) = false →
  to_id l1 = to_id l2 → l1 = l2.
Proof.
  intros Hf1 Hp1 Hf2 Hp2 H; unfold to_id in H.
  destruct l1 as [f1 p1 n1], l2 as [f2 p2 n2]; cbn [func path lineno] in *.
  change (f1 ++ ":" ++ p1 ++ ":" ++ str_of_int n1)%string
    with (f1 ++ String ":" (p1 ++ String ":" (str_of_int n1)))%string in H.
  change (f2 ++ ":" ++ p2 ++ ":" ++ str_of_int n2)%string
    with (f2 ++ String ":" (p2 ++ String ":" (str_of_int n2)))%string in H.
  apply colon_split_unique in H as [-> H]; [|assumption..].
  apply colon_split_unique in H as [-> H]; [|assumption..].
  apply str_of_int_inj in H as ->; reflexivity.
Qed.

Lemma to_id_injective_without_colon_witness :
  mkLocation "dict_lookup" "dictobject.c" 1274
  = mkLocation "dict_lookup" "dictobject.c" 1274.
Proof.
  apply (to_id_injective_without_colon
           (mkLocation "dict_lookup" "dictobject.c" 1274)
           (mkLocation "dict_lookup" "dictobject.c" 1274));
    reflexivity.
Defined.

(** * How main can end *)

Section Outcomes.

Lemma keyed_raises_ValueError (bs : list (list string * option string)) (e : exn) :
  keyed bs = Raise e → e = ValueError.
Proof.
  induction bs as [|[b t] bs IH]; cbn [keyed]; [discriminate|].
  pose proof (get_key_cases b) as Hc.
  destruct (get_key b) as [k|e']; cbn [mbind result_bind bind].
  - destruct (keyed bs) as [evs|e']; cbn; [discriminate|].
    intros [= <-]; apply IH; reflexivity.
  - intros [= <-]; inversion Hc; reflexivity.
Qed.

Lemma run_raises (infile : list string) (e : exn) :
  keyed (closed_blocks ([], false, None) infile) = Raise e →
  run init infile = Raise e.
Proof.
  intros Hk; rewrite run_events.
  change (parser_of init) with (([], false, None) : parser).
  rewrite Hk; reflexivity.
Qed.

End Outcomes.

(** X14: [main] ends in one of three ways.  If [get_key] raises on a closed
    block, nothing is printed and the error is ValueError.  Otherwise, if a
    closed block has the key None, the report starts and breaks off with
    AttributeError before the trailer.  Otherwise the report is whole, from
    preamble to trailer, and [main] returns. *)
Theorem main_outcomes (infile : list string) :
  match keyed (closed_blocks ([], false, None) infile) with
  | Raise _ => main infile = ([], Raise ValueError)
  | Ok evs =>
      if decide (Exists (has_key None) evs) then
        (main infile).2 = Raise AttributeError ∧
        head (main infile).1 = Some Preamble ∧
        Trailer ∉ (main infile).1
      else
        (main infile).2 = Ok () ∧
        head (main infile).1 = Some Preamble ∧
        last (main infile).1 = Some Trailer
  end.
Proof.
  destruct (keyed (closed_blocks ([], false, None) infile)) as [evs|e] eqn:Hk.
  - destruct (run_races _ _ Hk) as (st & Hrun & Hraces).
    unfold main; rewrite Hrun, Hraces.
    destruct (render_races_cases (ingest_events [] evs)) as [Hnone Hall].
    destruct (decide (Exists (has_key None) evs)) as [Hex|Hnex].
    + apply Hnone, ingest_events_keys, Hex.
    + destruct Hall as (H1 & H2 & H3 & _); [|auto].
      rewrite ingest_events_keys; exact Hnex.
  - pose proof (keyed_raises_ValueError _ _ Hk) as ->.
    unfold main; rewrite (run_raises _ _ Hk); reflexivity.
Qed.

(** * Splitting and joining *)

Section SplitJoin.

Fixpoint count_char (c : ascii) (s : string) : nat :=
  match s with
  | EmptyString => 0
  | String x r => ((if Py.ch_eqb x c then 1 else 0) + count_char c r)%nat
  end.

Lemma split_on_nonempty (c : ascii) (s : string) : Py.split_on c s ≠ [].
Proof.
  induction s as [|x s IH]; cbn [Py.split_on]; [discriminate|].
  destruct (Py.ch_eqb x c); [discriminate|].
  destruct (Py.split_on c s); [contradiction | discriminate].
Qed.

Lemma join_cons (sep p : string) (ps : list string) :
  ps ≠ [] → Py.join sep (p :: ps) = (p ++ sep ++ Py.join sep ps)%string.
Proof. destruct ps; [contradiction | reflexivity]. Qed.

Lemma split_on_no_sep (c : ascii) (s : string) :
  has_char c s = false → Py.split_on c s = [s].
Proof.
  induction s as [|x s IH]; [reflexivity|].
  cbn [has_char Py.split_on]; intros H; apply orb_false_elim in H as [Hx Hs].
  rewrite Hx, (IH Hs); reflexivity.
Qed.

Lemma split_on_app (c : ascii) (a rest : string) :
  has_char c a = false →
  Py.split_on c (a ++ String c rest)%string = a :: Py.split_on c rest.
Proof.
  induction a as [|x a IH]; cbn [has_char].
  - intros _; rewrite str_app_nil; cbn [Py.split_on].
    unfold Py.ch_eqb; rewrite Ascii.eqb_refl; reflexivity.
  - intros H; apply orb_false_elim in H as [Hx Ha].
    rewrite str_app_cons; cbn [Py.split_on]; rewrite Hx, (IH Ha); reflexivity.
Qed.

End SplitJoin.

(** X15: [split] on a character and [join] with it are inverse: joining the
    parts of a text gives the text back, and the parts are one more than the
    occurrences of the character; so a location field has three parts exactly
    when it holds two colons. *)
Theorem split_on_join_round_trip (c : ascii) (s : string) :
  Py.join (String c EmptyString) (Py.split_on c s) = s ∧
  length (Py.split_on c s) = S (count_char c s).
Proof.
  induction s as [|x s [IH1 IH2]]; [split; reflexivity|].
  cbn [Py.split_on count_char].
  destruct (Py.ch_eqb x c) eqn:Hx.
  - apply Ascii.eqb_eq in Hx; subst x.
    rewrite join_cons by apply split_on_nonempty.
    rewrite IH1; cbn [length]; rewrite IH2; split; reflexivity.
  - pose proof (split_on_nonempty c s) as Hne.
    destruct (Py.split_on c s) as [|h t]; [contradiction|].
    cbn [length] in *; split; [|lia].
    destruct t as [|h' t].
    + cbn [Py.join] in *; rewrite IH1; reflexivity.
    + rewrite join_cons in * by discriminate.
      rewrite str_app_cons, IH1; reflexivity.
Qed.

(** X16: the example text of a block, its lines joined by newlines, splits
    back into those lines when the block is not empty and no line holds a
    newline: blocks of different lines have different example texts. *)
Theorem example_text_round_trip (block : list string) :
  block ≠ [] → Forall (fun l => has_char Py.NL l = false) block →
  Py.split_on Py.NL (example_text block) = block.
Proof.
  unfold example_text; induction block as [|l block IH]; [contradiction|].
  intros _ Hall; inversion Hall as [|? ? Hl Hrest]; subst.
  destruct block as [|l' block].
  - cbn [Py.join]; apply split_on_no_sep, Hl.
  - rewrite join_cons by discriminate.
    rewrite str_app_cons, str_app_nil, (split_on_app _ _ _ Hl).
    rewrite IH; [reflexivity | discriminate | exact Hrest].
Qed.

Lemma example_text_round_trip_witness :
  Py.split_on Py.NL
    (example_text ["WARNING: ThreadSanitizer: data race"; ""; "    #0 f a.c:1:2 x"])
  = ["WARNING: ThreadSanitizer: data race"; ""; "    #0 f a.c:1:2 x"].
Proof.
  apply (example_text_round_trip
           ["WARNING: ThreadSanitizer: data race"; ""; "    #0 f a.c:1:2 x"]).
  - discriminate.
  - repeat constructor.
Defined.

(** * The tests column *)

Section TestsColumn.

Definition str_le (a b : string) : Prop := String.leb a b = true.

Lemma insert_str_perm (x : string) (l : list string) :
  insert_str x l ≡ₚ x :: l.
Proof.
  induction l as [|y l IH]; cbn [insert_str]; [reflexivity|].
  destruct (String.leb x y); [reflexivity|].
  rewrite IH; apply perm_swap.
Qed.

Lemma insert_str_sorted (x : string) (l : list string) :
  Sorted str_le l → Sorted str_le (insert_str x l).
Proof.
  induction 1 as [|y l Hl IH Hy]; cbn [insert_str]; [repeat constructor|].
  destruct (String.leb x y) eqn:Hxy.
  - constructor; [constructor; assumption | constructor; exact Hxy].
  - assert (Hyx : str_le y x).
    { destruct (String.leb_total x y) as [H|H]; [congruence | exact H]. }
    constructor; [exact IH|].
    destruct l as [|z l]; cbn [insert_str]; [constructor; exact Hyx|].
    destruct (String.leb x z); constructor; [exact Hyx|].
    inversion Hy; assumption.
Qed.

Lemma sorted_tests_perm (t : gset string) : sorted_tests t ≡ₚ elements t.
Proof.
  unfold sorted_tests; induction (elements t) as [|x l IH]; [reflexivity|].
  cbn [foldr]; rewrite insert_str_perm, IH; reflexivity.
Qed.

End TestsColumn.

(** X17: the tests of a row are listed in ascending order of their text, and
    the list holds the names of the record's tests set, each once. *)
Theorem tests_column_sorted (t : gset string) :
  Sorted str_le (sorted_tests t) ∧
  NoDup (sorted_tests t) ∧
  ∀ x, x ∈ sorted_tests t ↔ x ∈ t.
Proof.
  split; [|split].
  - unfold sorted_tests; induction (elements t) as [|x l IH]; [constructor|].
    cbn [foldr]; apply insert_str_sorted, IH.
  - rewrite sorted_tests_perm; apply NoDup_elements.
  - intros x; rewrite sorted_tests_perm; apply elem_of_elements.
Qed.

Lemma absent_key_iff_all_passed_witness :
  get_key ["WARNING: ThreadSanitizer: data race";
           "    #0 _Py_atomic_store mem.c:3:1 (python+0x1)"] = Ok None.
Proof.
  apply (proj2 (absent_key_iff_all_passed
                  ["WARNING: ThreadSanitizer: data race";
                   "    #0 _Py_atomic_store mem.c:3:1 (python+0x1)"])).
  repeat constructor.
Defined.

Lemma short_frame_iff_fewer_than_four_tokens_witness :
  short_frame "    #1 g b.c" = true.
Proof.
  apply (proj2 (proj2 (short_frame_iff_fewer_than_four_tokens "    #1 g b.c"))).
  split; [reflexivity | apply Nat.ltb_lt; reflexivity].
Defined.

(** * The location field *)

Section LocationField.

Lemma split_on_spec (c : ascii) (s : string) :
  Py.join (String c EmptyString) (Py.split_on c s) = s ∧
  length (Py.split_on c s) = S (count_char c s) ∧
  Forall (fun part => has_char c part = false) (Py.split_on c s).
Proof.
  induction s as [|x s (IHj & IHl & IHp)].
  - split; [reflexivity|]; split; [reflexivity|]; repeat constructor.
  - cbn [Py.split_on count_char].
    pose proof (split_on_nonempty c s) as Hne.
    destruct (Py.ch_eqb x c) eqn:Hx.
    + apply Ascii.eqb_eq in Hx; subst x.
      rewrite join_cons by exact Hne; rewrite IHj; cbn [length]; rewrite IHl.
      split; [reflexivity|]; split; [reflexivity|].
      constructor; [reflexivity | exact IHp].
    + destruct (Py.split_on c s) as [|h t]; [contradiction|].
      apply Forall_cons in IHp as [Hh Ht].
      cbn [length] in *; split; [|split; [lia|]].
      * destruct t as [|h' t]; [cbn [Py.join] in *; rewrite IHj; reflexivity|].
        rewrite join_cons in * by discriminate.
        rewrite str_app_cons, IHj; reflexivity.
      * constructor; [cbn [has_char]; rewrite Hx, Hh; reflexivity | exact Ht].
Qed.

(** A field of the form [p:l:x] is cut into its three parts. *)
Lemma split_on_three (p l x : string) :
  has_char ":" p = false → has_char ":" l = false → has_char ":" x = false →
  Py.split_on ":" (p ++ String ":" (l ++ String ":" x))%string = [p; l; x].
Proof.
  intros Hp Hl Hx.
  rewrite (split_on_app _ _ _ Hp), (split_on_app _ _ _ Hl).
  rewrite (split_on_no_sep _ _ Hx); reflexivity.
Qed.

(** A field with two colons has that form. *)
Lemma two_colons_three_parts (loc : string) :
  count_char ":" loc = 2%nat →
  ∃ p l x,
    loc = (p ++ String ":" (l ++ String ":" x))%string ∧
    has_char ":" p = false ∧ has_char ":" l = false ∧ has_char ":" x = false.
Proof.
  intros Hc; destruct (split_on_spec ":" loc) as (Hj & Hl & Hp).
  rewrite Hc in Hl.
  destruct (Py.split_on ":" loc) as [|p [|l [|x [|]]]]; try discriminate Hl.
  apply Forall_cons in Hp as [Hp1 Hp].
  apply Forall_cons in Hp as [Hp2 Hp].
  apply Forall_cons in Hp as [Hp3 _].
  exists p, l, x; split; [|auto].
  rewrite <- Hj; reflexivity.
Qed.

End LocationField.

Example int_rejects_separator_28 :
  Py.int (String (ascii_of_nat 28) "0") = None ∧ Py.int " 12 " = Some 12.
Proof. split; reflexivity. Qed.

(** C5, as stated, fails.  A frame line of three fields whose function is no
    primitive and whose location has three parts makes [get_key] raise at the
    unpacking of line 34; a frame line of four fields whose location has
    three parts, the second not a number, makes it raise at [int]. *)
Lemma location_from_frame_counterexample :
  (qualifying "    #0 f a.c:1:2" = true ∧
   Py.split 3 "    #0 f a.c:1:2" !! 2%nat = Some "a.c:1:2" ∧
   Py.split_on ":" "a.c:1:2" = ["a.c"; "1"; "2"] ∧
   get_key ["    #0 f a.c:1:2"] = Raise ValueError) ∧
  (qualifying "    #0 f a.c:zz:2 r" = true ∧
   Py.split 3 "    #0 f a.c:zz:2 r" !! 2%nat = Some "a.c:zz:2" ∧
   Py.split_on ":" "a.c:zz:2" = ["a.c"; "zz"; "2"] ∧
   get_key ["    #0 f a.c:zz:2 r"] = Raise ValueError).
Proof. repeat split; reflexivity. Qed.

(** C5, amended: on a frame line of four fields whose function is no
    primitive, a location field [p:l:x] with no other colon, whose part [l]
    [int] accepts as [n], gives the Location of the function, the basename of
    [p] and the line [n]; a location field that does not hold two colons
    gives the basename of the whole field and line 0; a field with two colons
    has the form [p:l:x].  The basename is what follows the last slash, and a
    run of decimal digits is the number it writes. *)
Theorem location_from_frame (line m fn loc rest : string) (later : list string) :
  Py.startswith FRAME_MARK line = true →
  Py.split 3 line = [m; fn; loc; rest] →
  PRIMITIVE_RE fn = false →
  (∀ p l x n,
     has_char ":" p = false → has_char ":" l = false → has_char ":" x = false →
     loc = (p ++ String ":" (l ++ String ":" x))%string → Py.int l = Some n →
     get_key (line :: later) = Ok (Some (mkLocation fn (Py.basename p) n))) ∧
  (count_char ":" loc ≠ 2%nat →
     get_key (line :: later) = Ok (Some (mkLocation fn (Py.basename loc) 0))) ∧
  (count_char ":" loc = 2%nat →
     ∃ p l x,
       loc = (p ++ String ":" (l ++ String ":" x))%string ∧
       has_char ":" p = false ∧ has_char ":" l = false ∧ has_char ":" x = false) ∧
  (∀ dir name, has_char "/" name = false →
     Py.basename (dir ++ String "/" name)%string = name ∧ Py.basename name = name) ∧
  (∀ ds, all_chars Py.is_digit ds = true → ds ≠ EmptyString →
     (String.length ds ≤ Py.max_str_digits)%nat → Py.int ds = Some (dec_value 0 ds)).
Proof.
  intros Hm Hs Hp.
  rewrite (get_key_frame _ _ _ _ _ later Hm Hs Hp).
  unfold make_location, split_loc.
  split; [|split; [|split; [|split]]].
  - intros p l x n Hcp Hcl Hcx -> Hint.
    rewrite (split_on_three _ _ _ Hcp Hcl Hcx), Hint; reflexivity.
  - intros Hcount.
    destruct (split_on_spec ":" loc) as (_ & Hlen & _).
    destruct (Py.split_on ":" loc) as [|p [|l [|x [|]]]]; cbn [length] in Hlen;
      first [reflexivity | exfalso; apply Hcount; lia].
  - apply two_colons_three_parts.
  - intros dir name Hn; split;
      [apply basename_last_segment | apply basename_no_slash]; exact Hn.
  - apply int_plain_digits.
Qed.

Lemma location_from_frame_witness :
  get_key ["    #1 dict_lookup /src/Objects/dictobject.c:1274:5 (python+0x2)";
           "    #2 other Objects/x.c:7:1 (python+0x3)"]
  = Ok (Some (mkLocation "dict_lookup" "dictobject.c" 1274)) ∧
  get_key ["    #0 memcpy <null> (libc.so.6+0x5)";
           "    #1 g b.c:1:1 (python+0x1)"]
  = Ok (Some (mkLocation "memcpy" "<null>" 0)).
Proof.
  split.
  - apply (proj1 (location_from_frame
             "    #1 dict_lookup /src/Objects/dictobject.c:1274:5 (python+0x2)"
             "#1" "dict_lookup" "/src/Objects/dictobject.c:1274:5" "(python+0x2)"
             ["    #2 other Objects/x.c:7:1 (python+0x3)"]
             eq_refl eq_refl eq_refl)
           "/src/Objects/dictobject.c" "1274" "5" 1274);
      reflexivity.
  - apply (proj1 (proj2 (location_from_frame
             "    #0 memcpy <null> (libc.so.6+0x5)"
             "#0" "memcpy" "<null>" "(libc.so.6+0x5)"
             ["    #1 g b.c:1:1 (python+0x1)"]
             eq_refl eq_refl eq_refl))).
    discriminate.
Defined.
